(** * AI resume customiser: a shallow embedding of [app.py]

    The development follows the source file top to bottom:

    - [Py]: the fragment of the Python runtime the program relies on
      (exceptions, [str] methods, [int]/[float] arithmetic);
    - [Re]: the fragment of the [re] module used by the two patterns;
    - the functions of [app.py] under their own names ([extract_text],
      [extract_keywords], [calculate_match_score], [customize_resume],
      [prepare_interview], [chat_with_bot]);
    - the properties of the specification, stated and proved on them.

    Conventions.  A Python [str] is a Rocq [string]; its characters are the
    code points U+0000..U+00FF (Rocq's [ascii] has 256 values), and the
    character classes below are Python's on that range.  A computation that
    may raise has type [res A].  A Python [float] is an IEEE-754 binary64
    value; the scorer only forms non-negative ones, and they are kept as
    a mantissa with a binary exponent. *)

From Stdlib Require Import ZArith Lia Bool Strings.String Strings.Ascii List.
From Stdlib Require Import Init.Byte Floats.SpecFloat.
From stdpp Require Import base option list gmap strings pretty.

Set Warnings "-register-all".

(* ===================================================================== *)
(** * Python runtime *)
(* ===================================================================== *)

Module Py.

(** ** Exceptions and computations that may raise *)

Inductive exn_kind :=
  | OverflowError | ZeroDivisionError | ValueError | AttributeError
  | KeyError | TypeError | UnicodeDecodeError | LibraryError.

(** An exception: its class and [str(e)]. *)
Record exn := Exn { exn_class : exn_kind; exn_str : string }.

Inductive res (A : Type) :=
  | Ok (a : A)
  | Raise (e : exn).
Arguments Ok {A} a.
Arguments Raise {A} e.

#[export] Instance res_ret : MRet res := fun A a => Ok a.
#[export] Instance res_bind : MBind res := fun A B f m =>
  match m with Ok a => f a | Raise e => Raise e end.

(** [try: body except Exception as e: handler e] *)
Definition try_except {A} (body : res A) (handler : exn -> A) : A :=
  match body with Ok a => a | Raise e => handler e end.

(** ** Characters *)

Definition code (c : ascii) : N := N_of_ascii c.

Definition between (lo hi : N) (c : ascii) : bool :=
  (lo <=? code c)%N && (code c <=? hi)%N.

(** [[a-z]] *)
Definition is_az (c : ascii) : bool := between 97 122 c.

(** [\d] on a [str] pattern: the decimal digits. *)
Definition is_digit (c : ascii) : bool := between 48 57 c.

(** [\s] and [str.isspace]. *)
Definition is_space (c : ascii) : bool :=
  between 9 13 c || between 28 32 c || (code c =? 133)%N || (code c =? 160)%N.

(** [\w]: alphanumeric ([str.isalnum]) or underscore. *)
Definition is_word (c : ascii) : bool :=
  between 48 57 c || between 65 90 c || (code c =? 95)%N || between 97 122 c
  || (code c =? 170)%N || between 178 179 c || (code c =? 181)%N
  || between 185 186 c || between 188 190 c
  || between 192 214 c || between 216 246 c || between 248 255 c.

(** Characters with a lower-case mapping: A-Z and the upper-case letters
    of U+00C0..U+00DE (U+00D7 is the multiplication sign). *)
Definition is_upper (c : ascii) : bool :=
  between 65 90 c || between 192 214 c || between 216 222 c.

Definition lower_char (c : ascii) : ascii :=
  if is_upper c then ascii_of_N (code c + 32) else c.

(** ** [str] methods *)

(** [s.lower()] *)
Fixpoint lower (s : string) : string :=
  match s with
  | EmptyString => EmptyString
  | String c s' => String (lower_char c) (lower s')
  end.

Fixpoint lstrip (s : string) : string :=
  match s with
  | String c s' => if is_space c then lstrip s' else s
  | EmptyString => EmptyString
  end.

(** [rstrip] drops the white space that is followed by white space only. *)
Fixpoint rstrip (s : string) : string :=
  match s with
  | EmptyString => EmptyString
  | String c s' =>
      match rstrip s' with
      | EmptyString => if is_space c then EmptyString else String c EmptyString
      | t => String c t
      end
  end.

(** [s.strip()] *)
Definition strip (s : string) : string := rstrip (lstrip s).

(** [s.startswith(p)] *)
Fixpoint startswith (s p : string) : bool :=
  match p, s with
  | EmptyString, _ => true
  | String a p', String b s' => Ascii.eqb a b && startswith s' p'
  | String _ _, EmptyString => false
  end.

(** [s.endswith(p)] *)
Fixpoint endswith (s p : string) : bool :=
  (String.length s =? String.length p)%nat && String.eqb s p
  || match s with
     | EmptyString => false
     | String _ s' => endswith s' p
     end.

(** [s.replace(old, new)] for a non-empty [old]: occurrences are found
    from the left and do not overlap.  [skip] counts the characters of the
    occurrence being dropped. *)
Fixpoint replace_from (old new s : string) (skip : nat) : string :=
  match s with
  | EmptyString => EmptyString
  | String c s' =>
      match skip with
      | S n => replace_from old new s' n
      | O =>
          if startswith s old
          then new +:+ replace_from old new s' (String.length old - 1)
          else String c (replace_from old new s' 0)
      end
  end.

Definition replace (s old new : string) : string := replace_from old new s 0.

(** [sep.join(parts)] *)
Fixpoint join (sep : string) (parts : list string) : string :=
  match parts with
  | [] => EmptyString
  | [p] => p
  | p :: ps => p +:+ sep +:+ join sep ps
  end.

(** Cased characters: the letters with an upper- or lower-case form,
    and the ordinal indicators U+00AA, U+00BA. *)
Definition is_cased (c : ascii) : bool :=
  is_upper c || between 97 122 c || (code c =? 170)%N || (code c =? 181)%N
  || (code c =? 186)%N || between 223 246 c || between 248 255 c.

(** Title-case form of one character.  U+00DF becomes [Ss].  The title
    forms of U+00B5 and U+00FF lie above U+00FF: these two are left as
    they are, and the statements on [title] keep to ASCII labels. *)
Definition title_char (c : ascii) : string :=
  if between 97 122 c || between 224 246 c || between 248 254 c
  then String (ascii_of_N (code c - 32)) EmptyString
  else if (code c =? 223)%N then "Ss"
  else String c EmptyString.

Fixpoint title_from (prev_cased : bool) (s : string) : string :=
  match s with
  | EmptyString => EmptyString
  | String c s' =>
      (if prev_cased then String (lower_char c) EmptyString else title_char c)
      +:+ title_from (is_cased c) s'
  end.

(** [s.title()]: a cased character is upper-cased when it follows an
    uncased one (or starts the string) and lower-cased otherwise. *)
Definition title (s : string) : string := title_from false s.

Definition is_ascii (c : ascii) : bool := (code c <? 128)%N.

Fixpoint is_ascii_str (s : string) : bool :=
  match s with
  | EmptyString => true
  | String c s' => is_ascii c && is_ascii_str s'
  end.

(** [f"{n}"] for an [int]. *)
Definition str_of_int (n : Z) : string := pretty n.

Local Open Scope Z_scope.

(** ** [int] from a string of decimal digits *)

Definition digit_value (c : ascii) : Z := Z.of_N (code c) - 48.

Fixpoint int_digits (acc : Z) (s : string) : res Z :=
  match s with
  | EmptyString => Ok acc
  | String c s' =>
      if is_digit c then int_digits (10 * acc + digit_value c) s'
      else Raise (Exn ValueError "invalid literal for int() with base 10")
  end.

(** [int(s)] for the strings the program passes, which are non-empty runs
    of decimal digits.  (Signs, underscores and surrounding blanks are not
    modelled; neither is the interpreter's limit on the number of digits,
    beyond which the conversion itself raises.) *)
Definition int_of_str (s : string) : res Z :=
  match s with
  | EmptyString => Raise (Exn ValueError "invalid literal for int() with base 10")
  | _ => int_digits 0 s
  end.

(** ** Floating point

    A finite non-negative binary64 value is [Fin m e], standing for
    [m * 2^e], with [0 <= m < 2^53] and [-1074 <= e <= 971]; the values
    built by [round] are normalised ([2^52 <= m] unless [e = -1074]), so
    that equal values are equal terms.  The scorer never forms a negative
    float. *)

Inductive float :=
  | Fin (m e : Z)
  | PInf
  | NaN.

(** Nearest integer to [p/q], ties to even ([0 <= p], [0 < q]). *)
Definition rne (p q : Z) : Z :=
  let d := p / q in
  match 2 * (p mod q) ?= q with
  | Lt => d
  | Eq => if Z.even d then d else d + 1
  | Gt => d + 1
  end.

(** [floor (log2 (p/q))] for positive [p] and [q]. *)
Definition ilog2q (p q : Z) : Z :=
  let d := Z.log2 p - Z.log2 q in
  if 0 <=? d
  then if q * 2 ^ d <=? p then d else d - 1
  else if q <=? p * 2 ^ (- d) then d else d - 1.

(** Round to nearest, ties to even: the binary64 value nearest to
    [(p/q) * 2^e] ([0 <= p], [0 < q]), or [PInf] on overflow.  [t] is the
    exponent of the last place of the result: 52 below the leading bit,
    and never under that of the subnormals. *)
Definition round (p q e : Z) : float :=
  let t := Z.max (ilog2q p q + e - 52) (-1074) in
  let m := if e <? t then rne p (q * 2 ^ (t - e)) else rne (p * 2 ^ (e - t)) q in
  if m =? 0 then Fin 0 (-1074)
  else if m =? 2 ^ 53 then (if 971 <? t + 1 then PInf else Fin (2 ^ 52) (t + 1))
  else if 971 <? t then PInf else Fin m t.

(** A decimal literal [p/q], such as [0.4] = [4/10]. *)
Definition literal (p q : Z) : float := round p q 0.

(** [float(n)] for a non-negative [int]; raises when out of range. *)
Definition float_of_int (n : Z) : res float :=
  match round n 1 0 with
  | PInf => Raise (Exn OverflowError "int too large to convert to float")
  | x => Ok x
  end.

(** [a / b] on non-negative [int]s: the correctly rounded quotient. *)
Definition truediv (a b : Z) : res float :=
  if b =? 0 then Raise (Exn ZeroDivisionError "division by zero")
  else match round a b 0 with
       | PInf => Raise (Exn OverflowError "integer division result too large for a float")
       | x => Ok x
       end.

(** [x * y] on floats. *)
Definition fmul (x y : float) : float :=
  match x, y with
  | Fin m1 e1, Fin m2 e2 => round (m1 * m2) 1 (e1 + e2)
  | NaN, _ | _, NaN => NaN
  | PInf, Fin m _ | Fin m _, PInf => if m =? 0 then NaN else PInf
  | PInf, PInf => PInf
  end.

(** [x + y] on floats. *)
Definition fadd (x y : float) : float :=
  match x, y with
  | Fin m1 e1, Fin m2 e2 =>
      let e := Z.min e1 e2 in
      round (m1 * 2 ^ (e1 - e) + m2 * 2 ^ (e2 - e)) 1 e
  | NaN, _ | _, NaN => NaN
  | _, _ => PInf
  end.

(** [x * n] and [n * x] with [n] an [int]: the [int] is converted first. *)
Definition fmul_int (x : float) (n : Z) : res float :=
  y ← float_of_int n; mret (fmul x y).

Definition int_mul_float (n : Z) (x : float) : res float :=
  y ← float_of_int n; mret (fmul y x).

(** [int(x)]: truncation; raises on an infinity or a NaN. *)
Definition int_of_float (x : float) : res Z :=
  match x with
  | Fin m e => Ok (Z.shiftl m e)
  | PInf => Raise (Exn OverflowError "cannot convert float infinity to integer")
  | NaN => Raise (Exn ValueError "cannot convert float NaN to integer")
  end.

(** The same value as a [spec_float] of the standard library. *)
Definition to_spec (x : float) : spec_float :=
  match x with
  | Fin m e => match m with Zpos m' => S754_finite false m' e | _ => S754_zero false end
  | PInf => S754_infinity false
  | NaN => S754_nan
  end.

Definition spec_of_int (n : Z) : spec_float := binary_normalize 53 1024 n 0 false.

End Py.

(* ===================================================================== *)
(** * The fragment of [re] used by the program *)
(* ===================================================================== *)

Module Re.

(** Pattern syntax.  Quantifiers apply to single-character items, which
    is all the two patterns of the program need. *)
Inductive regex :=
  | Chr (p : ascii -> bool)     (** one character: a literal, a class, [\d], [\s] *)
  | Star (p : ascii -> bool)    (** [x*], greedy *)
  | Plus (p : ascii -> bool)    (** [x+], greedy *)
  | Opt (p : ascii -> bool)     (** [x?], greedy *)
  | WordB                       (** [\b] *)
  | Seq (r1 r2 : regex)
  | Alt (r1 r2 : regex)         (** [(?:r1|r2)], [r1] tried first *)
  | Group (r : regex)           (** [(r)], the capturing group *)
  | Eps.

(** A literal character, and the same under [re.IGNORECASE]. *)
Definition lit (c : ascii) : ascii -> bool := Ascii.eqb c.
Definition lit_i (c : ascii) : ascii -> bool :=
  fun x => Ascii.eqb (Py.lower_char x) (Py.lower_char c).

(** The state of a match attempt: the character before the current
    position (for [\b]), the text still to read and the text of the
    group, if it has been closed. *)
Definition cont (R : Type) : Type := option ascii -> string -> option string -> option R.

Definition is_word_opt (c : option ascii) : bool :=
  match c with Some c => Py.is_word c | None => false end.

Definition head (s : string) : option ascii :=
  match s with String c _ => Some c | EmptyString => None end.

(** [\b]: exactly one side is a word character. *)
Definition word_boundary (prev : option ascii) (s : string) : bool :=
  xorb (is_word_opt prev) (is_word_opt (head s)).

(** The part of [s] read when [rest] remains. *)
Definition consumed (s rest : string) : string :=
  substring 0 (String.length s - String.length rest) s.

(** Greedy repetition with backtracking: take one more character when
    possible, fall back on the shorter repetition when what follows
    fails. *)
Fixpoint star_loop {R} (p : ascii -> bool) (prev : option ascii) (s : string)
    (cap : option string) (k : cont R) : option R :=
  match s with
  | String c s' =>
      if p c then
        match star_loop p (Some c) s' cap k with
        | Some m => Some m
        | None => k prev s cap
        end
      else k prev s cap
  | EmptyString => k prev s cap
  end.

(** Backtracking matcher in continuation-passing style. *)
Fixpoint exec {R} (r : regex) (prev : option ascii) (s : string)
    (cap : option string) (k : cont R) : option R :=
  match r with
  | Chr p =>
      match s with
      | String c s' => if p c then k (Some c) s' cap else None
      | EmptyString => None
      end
  | Star p => star_loop p prev s cap k
  | Plus p =>
      match s with
      | String c s' => if p c then star_loop p (Some c) s' cap k else None
      | EmptyString => None
      end
  | Opt p =>
      match s with
      | String c s' =>
          if p c then
            match k (Some c) s' cap with
            | Some m => Some m
            | None => k prev s cap
            end
          else k prev s cap
      | EmptyString => k prev s cap
      end
  | WordB => if word_boundary prev s then k prev s cap else None
  | Seq r1 r2 => exec r1 prev s cap (fun prev' s' cap' => exec r2 prev' s' cap' k)
  | Alt r1 r2 =>
      match exec r1 prev s cap k with
      | Some m => Some m
      | None => exec r2 prev s cap k
      end
  | Group r => exec r prev s cap (fun prev' s' _ => k prev' s' (Some (consumed s s')))
  | Eps => k prev s cap
  end.

(** A match starting at the current position: what remains after it and
    the text of the group. *)
Definition match_at (r : regex) (prev : option ascii) (s : string)
    : option (string * option string) :=
  exec r prev s None (fun _ rest cap => Some (rest, cap)).

Fixpoint has_group (r : regex) : bool :=
  match r with
  | Group _ => true
  | Seq r1 r2 | Alt r1 r2 => has_group r1 || has_group r2
  | _ => false
  end.

(** What [findall] reports for a match: the group when the pattern has
    one, the whole match otherwise. *)
Definition item (r : regex) (s : string) (m : string * option string) : string :=
  if has_group r then default EmptyString (snd m) else consumed s (fst m).

(** Scan from left to right; after a match the scan resumes where the
    match ended ([skip] characters further).  Both patterns of the
    program match at least one character, so the rule for empty matches
    is never met. *)
Fixpoint findall_scan (r : regex) (prev : option ascii) (s : string) (skip : nat)
    : list string :=
  match skip, s with
  | S n, String c s' => findall_scan r (Some c) s' n
  | S _, EmptyString => []
  | O, _ =>
      match match_at r prev s with
      | Some m =>
          item r s m ::
          match s with
          | String c s' =>
              findall_scan r (Some c) s' (String.length s - String.length (fst m) - 1)
          | EmptyString => []
          end
      | None =>
          match s with
          | String c s' => findall_scan r (Some c) s' 0
          | EmptyString => []
          end
      end
  end.

(** [re.findall(pattern, s)] *)
Definition findall (r : regex) (s : string) : list string := findall_scan r None s 0.

Fixpoint seq_of (rs : list regex) : regex :=
  match rs with
  | [] => Eps
  | [r] => r
  | r :: rs' => Seq r (seq_of rs')
  end.

End Re.

(* ===================================================================== *)
(** * app.py *)
(* ===================================================================== *)

Import Py.

(** ** extract_keywords *)

Definition stop_words : gset string := list_to_set
  ["the"; "a"; "an"; "and"; "or"; "but"; "in"; "on"; "at"; "to"; "for";
   "of"; "with"; "by"; "from"; "as"; "is"; "was"; "are"; "been"; "be";
   "have"; "has"; "do"; "does"; "did"; "will"; "would"; "could"; "should";
   "may"; "might"; "must"; "can"; "this"; "that"; "these"; "those"; "i";
   "you"; "he"; "she"; "it"; "we"; "they"; "what"; "which"; "who"; "when";
   "where"; "why"; "how"; "all"; "each"; "every"; "both"; "few"; "more";
   "most"; "other"; "some"; "such"; "no"; "nor"; "not"; "only"; "own";
   "same"; "so"; "than"; "too"; "very"].

(** [r'\b[a-z]+\b'] *)
Definition word_pattern : Re.regex :=
  Re.seq_of [Re.WordB; Re.Plus is_az; Re.WordB].

Definition extract_keywords (text : string) : list string :=
  let text := lower text in
  let words := Re.findall word_pattern text in
  let keywords :=
    filter (fun w => (3 <= String.length w)%nat /\ w ∉ stop_words) words in
  keywords.

(** ** calculate_match_score *)

Definition tech_skills : gset string := list_to_set
  ["python"; "java"; "javascript"; "sql"; "aws"; "azure"; "gcp";
   "react"; "django"; "flask"; "node"; "docker"; "kubernetes";
   "machine"; "learning"; "data"; "analysis"; "analytics"; "api";
   "rest"; "graphql"; "devops"; "ci"; "cd"; "git"; "linux"; "windows";
   "agile"; "scrum"; "jira"; "mongodb"; "postgresql"; "redis"].

Definition professional_terms : gset string := list_to_set
  ["achieved"; "improved"; "led"; "managed"; "developed";
   "implemented"; "designed"; "created"; "optimized"; "increased";
   "delivered"; "contributed"; "collaborated"; "proven"].

(** [r'(\d+)\s*(?:years?|yrs)'] compiled with [re.IGNORECASE] *)
Definition years_pattern : Re.regex :=
  Re.seq_of
    [Re.Group (Re.Plus is_digit);
     Re.Star is_space;
     Re.Alt
       (Re.seq_of [Re.Chr (Re.lit_i "y"); Re.Chr (Re.lit_i "e"); Re.Chr (Re.lit_i "a");
                   Re.Chr (Re.lit_i "r"); Re.Opt (Re.lit_i "s")])
       (Re.seq_of [Re.Chr (Re.lit_i "y"); Re.Chr (Re.lit_i "r"); Re.Chr (Re.lit_i "s")])].

(** [len(x)] of a set, as an [int]. *)
Definition len (X : gset string) : Z := Z.of_nat (size X).

(** The experience block (source lines 100-106). *)
Definition experience_of (resume_text : string) : res Z :=
  let years_match := Re.findall years_pattern resume_text in
  match years_match with
  | [] => mret 0%Z
  | y0 :: _ =>
      years ← int_of_str y0;
      if (0 <? years)%Z then
        q ← truediv years 10;
        p ← fmul_int q 100;
        i ← int_of_float p;
        mret (Z.min i 100)
      else mret 0%Z
  end.

(** The tone block (source lines 109-113). *)
Definition tone_of (resume_set : gset string) : res Z :=
  let prof_in_resume := resume_set ∩ professional_terms in
  q ← truediv (len prof_in_resume) (Z.max 1 (len professional_terms));
  p ← fmul_int q 100;
  int_of_float p.

(** The overall score (source lines 116-117); the sum associates to the
    left. *)
Definition overall_of (skills_match experience_match keywords_match tone_match : Z)
    : res Z :=
  a ← int_mul_float skills_match (literal 4 10);
  b ← int_mul_float experience_match (literal 3 10);
  c ← int_mul_float keywords_match (literal 2 10);
  d ← int_mul_float tone_match (literal 1 10);
  int_of_float (fadd (fadd (fadd a b) c) d).

Definition summary_of (keywords_match skills_match : Z) : string :=
  "Your resume matches " +:+ str_of_int keywords_match
  +:+ "% of job keywords with " +:+ str_of_int skills_match
  +:+ "% skill alignment.".

Definition score : Type := Z * Z * Z * Z * string.

Definition calculate_match_score (resume_text jd_text : string) : res score :=
  let resume_keywords := extract_keywords resume_text in
  let jd_keywords := extract_keywords jd_text in
  let jd_unique : gset string := list_to_set jd_keywords in
  let resume_set : gset string := list_to_set resume_keywords in
  if decide (jd_unique = ∅) then
    mret (0, 0, 0, 0, "Unable to analyze")%Z
  else
    let matched_keywords := jd_unique ∩ resume_set in
    keywords_match ←
      (q ← truediv (len matched_keywords) (len jd_unique);
       p ← fmul_int q 100;
       int_of_float p);
    let jd_skills := jd_unique ∩ tech_skills in
    let resume_skills := resume_set ∩ tech_skills in
    let matched_skills := jd_skills ∩ resume_skills in
    skills_match ←
      (if decide (jd_skills = ∅) then mret 0%Z
       else
         q ← truediv (len matched_skills) (len jd_skills);
         p ← fmul_int q 100;
         int_of_float p);
    experience_match ← experience_of resume_text;
    tone_match ← tone_of resume_set;
    overall_score ← overall_of skills_match experience_match keywords_match tone_match;
    let summary := summary_of keywords_match skills_match in
    mret (overall_score, skills_match, experience_match, keywords_match, summary).

(** ** JSON values, requests and responses *)

(** A JSON value as [request.json] delivers it.  Numbers are kept to the
    integers. *)
Inductive json :=
  | JNull
  | JBool (b : bool)
  | JInt (z : Z)
  | JStr (s : string)
  | JArr (l : list json)
  | JObj (m : gmap string json).

(** Python truth value of a parsed JSON value ([not v] is its negation). *)
Definition truthy (v : json) : bool :=
  match v with
  | JNull => false
  | JBool b => b
  | JInt z => negb (z =? 0)%Z
  | JStr s => negb (String.eqb s "")
  | JArr l => match l with [] => false | _ => true end
  | JObj m => negb (bool_decide (m = ∅))
  end.

(** [d.get(k)] and [d.get(k, dflt)]; Python's [None] is [JNull]. *)
Definition dict_get (d : gmap string json) (k : string) : json :=
  default JNull (d !! k).
Definition dict_get_default (d : gmap string json) (k : string) (dflt : json) : json :=
  default dflt (d !! k).

(** What a handler hands back to Flask: a JSON body with a status, or an
    exception that escaped it. *)
Inductive outcome :=
  | Response (body : gmap string json) (status : Z)
  | Unhandled (e : exn).

(** [jsonify({"error": msg}), status] *)
Definition error_response (msg : string) (status : Z) : outcome :=
  Response {[ "error" := JStr msg ]} status.

Definition nl : string := String "010" EmptyString.

(** An uploaded file: [FileStorage.stream] and [FileStorage.filename]. *)
Record stream := Stream { content : list byte; pos : nat; closed : bool }.
Record upload := Upload { up_stream : stream; up_filename : option string }.

Definition closed_error : exn := Exn ValueError "I/O operation on closed file.".

(** [file_stream.seek(0)] *)
Definition seek0 (f : stream) : res stream :=
  if closed f then Raise closed_error
  else Ok (Stream (content f) 0 false).

(** [file_stream.read()]: everything from the current position. *)
Definition read (f : stream) : res (list byte) :=
  if closed f then Raise closed_error
  else Ok (drop (pos f) (content f)).

(** The generative backend: [model.generate_content(prompt).text]. *)
Definition backend : Type := string -> res string.

Section Handlers.

(** The document libraries, outside the repository: the page texts of a
    PDF ([fitz.open] and [page.get_text()]), the paragraph texts of a DOCX
    ([docx.Document] and [para.text]), and [bytes.decode("utf-8")].  Each
    may raise. *)
Variable pdf_page_texts : list byte -> res (list string).
Variable docx_paragraph_texts : list byte -> res (list string).
Variable decode_utf8 : list byte -> res string.

(** [str(v)] of a list or a dict (Python's [repr] of containers). *)
Variable repr_container : json -> string.

(** ** extract_text *)

(** [filename.endswith(suffix)]; a missing filename is [None]. *)
Definition filename_endswith (filename : option string) (suffix : string) : res bool :=
  match filename with
  | Some f => Ok (endswith f suffix)
  | None => Raise (Exn AttributeError "'NoneType' object has no attribute 'endswith'")
  end.

(** The body of the [try] block. *)
Definition extract_text_body (file_stream : stream) (filename : option string)
    : res string :=
  file_stream ← seek0 file_stream;
  is_pdf ← filename_endswith filename ".pdf";
  if is_pdf : bool then
    bytes ← read file_stream;
    pages ← pdf_page_texts bytes;
    mret (join "" pages)
  else
    is_docx ← filename_endswith filename ".docx";
    if is_docx : bool then
      bytes ← read file_stream;
      paragraphs ← docx_paragraph_texts bytes;
      mret (join nl paragraphs)
    else
      is_txt ← filename_endswith filename ".txt";
      if is_txt : bool then
        bytes ← read file_stream;
        decode_utf8 bytes
      else mret "".

Definition str_of_filename (filename : option string) : string :=
  default "None" filename.

(** The text and the lines written by [logging.error]. *)
Definition extract_text (file_stream : stream) (filename : option string)
    : string * list string :=
  try_except
    (text ← extract_text_body file_stream filename; mret (text, []))
    (fun e =>
       ("", ["Error extracting text from " +:+ str_of_filename filename
             +:+ ": " +:+ exn_str e])).

(** ** customize_resume *)

Definition tailor_prompt (resume_text jd_text : string) : string :=
  "Tailor this resume to match the job description. Rewrite the summary and bullet points to include relevant keywords and skills from the JD. Keep it professional and concise. Return only the tailored resume text."
  +:+ nl +:+ nl +:+ "**Job Description:**" +:+ nl +:+ jd_text
  +:+ nl +:+ nl +:+ "**Original Resume:**" +:+ nl +:+ resume_text
  +:+ nl +:+ nl +:+ "**Tailored Resume:**".

(** [response.text.replace('```', '').strip()] *)
Definition tailored_of (response_text : string) : string :=
  strip (replace response_text "```" "").

Definition customize_resume (model : option backend) (files : gmap string upload)
    : outcome :=
  match model with
  | None => error_response "Model not available" 500
  | Some generate =>
      match files !! "resume", files !! "job_description" with
      | Some resume_file, Some jd_file =>
          try_except
            (let resume_text := (extract_text (up_stream resume_file) (up_filename resume_file)).1 in
             let jd_text := (extract_text (up_stream jd_file) (up_filename jd_file)).1 in
             if String.eqb resume_text "" || String.eqb jd_text "" then
               mret (error_response "Could not extract text from files" 400)
             else
               '(overall, skills, exp, keywords, summary) ←
                 calculate_match_score resume_text jd_text;
               let prompt := tailor_prompt resume_text jd_text in
               response_text ← generate prompt;
               let tailored := tailored_of response_text in
               mret (Response
                       (<["customized_resume" := JStr tailored]>
                        (<["resume_text" := JStr resume_text]>
                        (<["jd_text" := JStr jd_text]>
                        (<["overall_score" := JInt overall]>
                        (<["skills_match" := JInt skills]>
                        (<["experience_match" := JInt exp]>
                        (<["keywords_match" := JInt keywords]>
                        (<["match_summary" := JStr summary]> ∅))))))))
                       200))
            (fun e => error_response (exn_str e) 500)
      | _, _ => error_response "Missing files" 400
      end
  end.

(** ** chat_with_bot *)

(** [f"{v}"] *)
Definition format_json (v : json) : string :=
  match v with
  | JStr s => s
  | JNull => "None"
  | JBool true => "True"
  | JBool false => "False"
  | JInt z => str_of_int z
  | _ => repr_container v
  end.

Definition not_iterable : exn := Exn TypeError "object is not iterable".
Definition not_subscriptable : exn := Exn TypeError "object is not subscriptable".
Definition bad_index : exn := Exn TypeError "indices must be integers".

(** The items a [for] loop visits. *)
Definition iterate (v : json) : res (list json) :=
  match v with
  | JArr l => Ok l
  | JStr s => Ok ((fun c => JStr (String c EmptyString)) <$> list_ascii_of_string s)
  | JObj m => Ok (JStr <$> (map_to_list m).*1)
  | _ => Raise not_iterable
  end.

(** [turn[key]] *)
Definition subscript (turn : json) (key : string) : res json :=
  match turn with
  | JObj m =>
      match m !! key with
      | Some v => Ok v
      | None => Raise (Exn KeyError key)
      end
  | JStr _ | JArr _ => Raise bad_index
  | _ => Raise not_subscriptable
  end.

(** [v.title()] *)
Definition title_of (v : json) : res string :=
  match v with
  | JStr s => Ok (title s)
  | _ => Raise (Exn AttributeError "object has no attribute 'title'")
  end.

Definition system_prompt (resume_text : json) : string :=
  "You are a helpful resume coach. Answer questions about this resume and provide actionable feedback."
  +:+ nl +:+ nl +:+ "**Resume:**" +:+ nl +:+ format_json resume_text
  +:+ nl +:+ nl +:+ "Be concise, professional, and specific.".

(** The [for turn in history] loop, threading [full_prompt]. *)
Fixpoint add_turns (full_prompt : string) (turns : list json) : res string :=
  match turns with
  | [] => Ok full_prompt
  | turn :: rest =>
      role ← subscript turn "role";
      label ← title_of role;
      turn_content ← subscript turn "content";
      add_turns (full_prompt +:+ label +:+ ": " +:+ format_json turn_content +:+ nl) rest
  end.

(** Source lines 224-234: the prompt sent to the backend. *)
Definition chat_prompt (resume_text history user_message : json) : res string :=
  let full_prompt := system_prompt resume_text +:+ nl +:+ nl +:+ "Conversation:" +:+ nl in
  turns ← iterate history;
  full_prompt ← add_turns full_prompt turns;
  mret (full_prompt +:+ nl +:+ "User: " +:+ format_json user_message
        +:+ nl +:+ "Assistant:").

Definition chat_with_bot (model : option backend) (data : gmap string json) : outcome :=
  match model with
  | None => error_response "Model not available" 500
  | Some generate =>
      let resume_text := dict_get data "resume_text" in
      let history := dict_get_default data "history" (JArr []) in
      let user_message := dict_get data "message" in
      if negb (truthy resume_text) || negb (truthy user_message) then
        error_response "Missing data" 400
      else
        match chat_prompt resume_text history user_message with
        | Raise e => Unhandled e
        | Ok full_prompt =>
            try_except
              (reply ← generate full_prompt;
               mret (Response {[ "reply" := JStr reply ]} 200))
              (fun e => error_response (exn_str e) 500)
        end
  end.

End Handlers.

(* ===================================================================== *)
(** * Reference definitions used in the statements *)
(* ===================================================================== *)

(** ** Binary64 on the lattice of multiples of 2^-1074

    Every finite binary64 value is an integer number of units of 2^-1074.
    On that lattice, rounding to nearest is a one-line definition; it is
    the yardstick for [Py.round], and order on floats is order on [Z]. *)

Module Lattice.

Local Open Scope Z_scope.

Definition scale : Z := 2 ^ 1074.

(** The first lattice point past the largest finite value, [2^1024]. *)
Definition top : Z := 2 ^ 2098.

(** Number of low bits that are zero in a representable value as large
    as [x]. *)
Definition drop_bits (x : Z) : Z := Z.max 0 (Z.log2 x - 52).

(** The representable value nearest to [P/Q] units, saturating at [top]. *)
Definition round (P Q : Z) : Z :=
  let j := drop_bits (P / Q) in
  Z.min (rne P (Q * 2 ^ j) * 2 ^ j) top.

(** The value of a float, in units; [top] stands for the infinity. *)
Definition lat (x : float) : Z :=
  match x with
  | Fin m e => m * 2 ^ (e + 1074)
  | _ => top
  end.

(** Well-formed: a non-negative mantissa and an exponent in range. *)
Definition wf (x : float) : Prop :=
  match x with
  | Fin m e => 0 <= m /\ -1074 <= e /\ m * 2 ^ (e + 1074) < top
  | PInf => True
  | NaN => False
  end.

Definition finite (x : float) : Prop :=
  match x with Fin _ _ => True | _ => False end.

End Lattice.

(** ** The keyword analyser as the specification words it *)

(** Split at every character that is not accepted by [keep]: the maximal
    runs of accepted characters, in order.  [cur] is the run being read. *)
Fixpoint runs (keep : ascii -> bool) (cur : string) (s : string) : list string :=
  match s with
  | EmptyString => match cur with EmptyString => [] | _ => [cur] end
  | String c s' =>
      if keep c then runs keep (cur +:+ String c EmptyString) s'
      else match cur with
           | EmptyString => runs keep EmptyString s'
           | _ => cur :: runs keep EmptyString s'
           end
  end.

Fixpoint all_chars (p : ascii -> bool) (s : string) : bool :=
  match s with
  | EmptyString => true
  | String c s' => p c && all_chars p s'
  end.

(** Length at least 3 and not a stop word. *)
Definition is_keyword (w : string) : Prop :=
  (3 <= String.length w)%nat /\ w ∉ stop_words.

#[export] Instance is_keyword_dec w : Decision (is_keyword w).
Proof. unfold is_keyword. apply _. Defined.

(** The specification's reading: every non-letter separates tokens. *)
Definition keywords_by_letter_runs (text : string) : list string :=
  filter is_keyword (runs is_az EmptyString (lower text)).

(** What the pattern does: the tokens are the runs of word characters
    (letters, digits, underscore) made of the letters a-z only. *)
Definition keywords_by_word_runs (text : string) : list string :=
  filter is_keyword
    (filter (fun w => all_chars is_az w = true) (runs is_word EmptyString (lower text))).

(** ** The percentage formula of the specification *)

(** [truncate(m / n * 100)] in binary64. *)
Definition truncated_percent (m n : Z) : res Z :=
  q ← truediv m n;
  p ← fmul_int q 100;
  int_of_float p.

(** ** Code fences *)

(** [sub] occurs in [s]. *)
Fixpoint occurs (sub s : string) : bool :=
  startswith s sub
  || match s with
     | EmptyString => false
     | String _ s' => occurs sub s'
     end.

Definition fence : string := "```".

(** The specification's reading: a fence is dropped at the start and at the
    end of the completion, the rest is left as it is. *)
Definition strip_outer_fences (completion : string) : string :=
  let s := strip completion in
  let s := if startswith s fence then substring 3 (String.length s - 3) s else s in
  let s := if endswith s fence then substring 0 (String.length s - 3) s else s in
  strip s.

(** ** Chat transcripts *)

(** A prior turn of the conversation. *)
Record turn := Turn { role : string; turn_text : string }.

Definition turn_json (t : turn) : json :=
  JObj (<["role" := JStr (role t)]> (<["content" := JStr (turn_text t)]> ∅)).

Definition history_json (h : list turn) : json := JArr (turn_json <$> h).

(** One line of the rendered transcript. *)
Definition render_turn (t : turn) : string :=
  title (role t) +:+ ": " +:+ turn_text t +:+ nl.

Fixpoint concat_lines (ls : list string) : string :=
  match ls with
  | [] => EmptyString
  | l :: ls' => l +:+ concat_lines ls'
  end.

(** The first letter in upper case, the rest unchanged. *)
Definition capitalize (s : string) : string :=
  match s with
  | EmptyString => EmptyString
  | String c s' => String (ascii_of_N (code c - 32)) s'
  end.

(** A field is missing or empty: absent, [null], or a value Python takes
    for false (for a text, the empty string). *)
Definition missing_or_empty (field : option json) : Prop :=
  truthy (default JNull field) = false.

(** ** Auxiliary notions of the proofs *)

(** The keyword set of a text. *)
Definition keyword_set (text : string) : gset string :=
  list_to_set (extract_keywords text).

(** The arithmetic of the experience block for a positive number of years
    (source line 106). *)
Definition experience_value (years : Z) : res Z :=
  q ← truediv years 10;
  p ← fmul_int q 100;
  i ← int_of_float p;
  mret (Z.min i 100).

(** The floats 1.0 and 100.0. *)
Definition one : float := Fin 4503599627370496 (-52).
Definition hundred : float := Fin 7036874417766400 (-46).

(** The longest prefix of accepted characters, and what follows it. *)
Fixpoint take_while (p : ascii -> bool) (s : string) : string :=
  match s with
  | String c s' => if p c then String c (take_while p s') else EmptyString
  | EmptyString => EmptyString
  end.

Fixpoint skip_while (p : ascii -> bool) (s : string) : string :=
  match s with
  | String c s' => if p c then skip_while p s' else s
  | EmptyString => EmptyString
  end.

(** A run, when it is not empty. *)
Definition emit (w : string) : list string :=
  match w with EmptyString => [] | _ => [w] end.

(** What follows [[a-z]+] in the word pattern: the closing [\b]. *)
Definition after_letters {R} (k : Re.cont R) : Re.cont R :=
  fun p s' c' => Re.exec Re.WordB p s' c' k.

(** The character before the position reached after reading [w]. *)
Fixpoint last_of (w : string) (prev : option ascii) : option ascii :=
  match w with
  | EmptyString => prev
  | String c w' => last_of w' (Some c)
  end.

(** The text an extraction yields, or the empty text when it fails. *)
Definition text_or_empty (r : res string) : string :=
  match r with Ok t => t | Raise _ => "" end.

(** [n] copies of a character. *)
Fixpoint repeat_char (c : ascii) (n : nat) : string :=
  match n with
  | O => EmptyString
  | S n' => String c (repeat_char c n')
  end.

(** ** Sample inputs *)

Definition sample_resume : string :=
  "I led and managed python and sql work for 3 years; improved docker".

Definition sample_job : string :=
  "We need python, sql, docker, kubernetes and java skills; team player".

(** The decimal digits of [10^308], and a resume that states as many years. *)
Definition digits_1e308 : string := String "1" (repeat_char "0" 308).

Definition resume_1e308_years : string := digits_1e308 +:+ " years".

(** [min(x, 100)] truncated, as the specification writes the experience
    match: 100 from 100.0 on, the infinity included. *)
Definition truncated_min_100 (x : float) : Z :=
  match x with
  | Fin m e => Z.min (Z.shiftl m e) 100
  | _ => 100
  end.

(** A pair of texts on which the four scores are 16, 40, 16 and 14. *)
Definition short_resume : string := "I led and managed python for 4 years".

Definition short_job : string := "python java sql aws azure gcp".

(** [m / n * 100] truncated is the integer quotient of [100 * m] by [n]. *)
Definition percent_is_exact (m n : Z) : bool :=
  match truncated_percent m n with
  | Ok v => (v =? 100 * m / n)%Z
  | Raise _ => false
  end.

(** ** Comparison with the standard library's floats *)

(** [m / n * 100] as [SpecFloat] computes it, compared with [Py]'s. *)
Definition agrees_on_percent (m n : Z) : bool :=
  match truediv m n with
  | Ok q =>
      match SFcompare (to_spec q) (SFdiv 53 1024 (spec_of_int m) (spec_of_int n)),
            SFcompare (to_spec (fmul q hundred))
                      (SFmul 53 1024 (SFdiv 53 1024 (spec_of_int m) (spec_of_int n))
                             (spec_of_int 100)) with
      | Some Eq, Some Eq => true
      | _, _ => false
      end
  | Raise _ => false
  end.

Definition pairs_upto (N : nat) : list (Z * Z) :=
  flat_map (fun n => map (fun m => (Z.of_nat m, Z.of_nat n)) (seq 0 (S n))) (seq 1 N).

(** ** prepare_interview *)

Section InterviewHandler.

Variable repr_container : json -> string.

(** Source lines 189-201; the second item of the list ends in two blanks. *)
Definition interview_prompt (resume_text jd_text : json) : string :=
  "Generate 10 likely interview questions for this job. Organize into 3 categories:"
  +:+ nl +:+ nl +:+ "1. **Behavioral Questions** (3 questions)"
  +:+ nl +:+ "2. **Technical/Skill-Based Questions** (4 questions)  "
  +:+ nl +:+ "3. **Role-Specific Questions** (3 questions)"
  +:+ nl +:+ nl +:+ "Be specific to the resume and job description."
  +:+ nl +:+ nl +:+ "**Job Description:**" +:+ nl +:+ format_json repr_container jd_text
  +:+ nl +:+ nl +:+ "**Resume:**" +:+ nl +:+ format_json repr_container resume_text.

Definition prepare_interview (model : option backend) (data : gmap string json)
    : outcome :=
  match model with
  | None => error_response "Model not available" 500
  | Some generate =>
      let resume_text := dict_get data "resume_text" in
      let jd_text := dict_get data "jd_text" in
      if negb (truthy resume_text) || negb (truthy jd_text) then
        error_response "Missing data" 400
      else
        let prompt := interview_prompt resume_text jd_text in
        try_except
          (questions ← generate prompt;
           mret (Response {[ "questions" := JStr questions ]} 200))
          (fun e => error_response (exn_str e) 500)
  end.

End InterviewHandler.

(** ** Notions used in the statements on the handlers *)

(** The handler answered with a JSON body and one of the three statuses
    the program uses. *)
Definition responds (o : outcome) : Prop :=
  exists body status, o = Response body status
                      /\ (status = 200 \/ status = 400 \/ status = 500)%Z.

(** [customize_resume] past its two guards: the body of its [try] block
    (source lines 140-171), on the two extracted texts. *)
Definition customize_body (generate : backend) (resume_text jd_text : string)
    : res outcome :=
  if String.eqb resume_text "" || String.eqb jd_text "" then
    mret (error_response "Could not extract text from files" 400)
  else
    '(overall, skills, exp, keywords, summary) ←
      calculate_match_score resume_text jd_text;
    let prompt := tailor_prompt resume_text jd_text in
    response_text ← generate prompt;
    let tailored := tailored_of response_text in
    mret (Response
            (<["customized_resume" := JStr tailored]>
             (<["resume_text" := JStr resume_text]>
             (<["jd_text" := JStr jd_text]>
             (<["overall_score" := JInt overall]>
             (<["skills_match" := JInt skills]>
             (<["experience_match" := JInt exp]>
             (<["keywords_match" := JInt keywords]>
             (<["match_summary" := JStr summary]> ∅))))))))
            200).

(** The HTTP status of an answer; none when an exception escaped. *)
Definition status_of (o : outcome) : option Z :=
  match o with
  | Response _ status => Some status
  | Unhandled _ => None
  end.

(** The JSON body a successful [/customize] answers with. *)
Definition customized_body (tailored resume_text jd_text : string)
    (overall skills exp keywords : Z) (summary : string) : gmap string json :=
  <["customized_resume" := JStr tailored]>
  (<["resume_text" := JStr resume_text]>
  (<["jd_text" := JStr jd_text]>
  (<["overall_score" := JInt overall]>
  (<["skills_match" := JInt skills]>
  (<["experience_match" := JInt exp]>
  (<["keywords_match" := JInt keywords]>
  (<["match_summary" := JStr summary]> ∅))))))).

(** A file the analyser reads as bytes in UTF-8. *)
Definition text_upload (name : string) (bytes : list byte) : upload :=
  Upload (Stream bytes 0 false) (Some name).

(** A decoder for the sample uploads: the bytes as Latin-1 characters. *)
Definition decode_sample (bytes : list byte) : res string :=
  Ok (string_of_list_byte bytes).

Definition no_document (bytes : list byte) : res (list string) :=
  Raise (Exn LibraryError "not a document").

Definition sample_files : gmap string upload :=
  <["resume" := text_upload "cv.txt" (list_byte_of_string sample_resume)]>
  (<["job_description" := text_upload "job.txt" (list_byte_of_string sample_job)]> ∅).

(** ** Texts that state a number of years *)

Definition not_digit (c : ascii) : bool := negb (is_digit c).



(** The character at which a repetition of [p] stops. *)
Definition stops (p : ascii -> bool) (s : string) : bool :=
  match s with
  | String c _ => negb (p c)
  | EmptyString => true
  end.

(** ** Auxiliary notions of the further proofs *)

(** The lattice value of [m / n * 100]. *)
Definition percent_lat (m n : Z) : Z :=
  (Lattice.round (Lattice.round (m * Lattice.scale) n * (100 * Lattice.scale))
     Lattice.scale)%Z.

(** [x] lies between [lo] and [hi] units of [2^-40]. *)
Definition bracketed (lo : Z) (x : float) (hi : Z) : Prop :=
  (lo * 2 ^ 1034 <= Lattice.lat x <= hi * 2 ^ 1034)%Z.

(** The last character of a string. *)
Fixpoint last_char (s : string) : option ascii :=
  match s with
  | EmptyString => None
  | String c EmptyString => Some c
  | String _ s' => last_char s'
  end.

(** ** More sample inputs *)

Definition other_resume : string := "gardening and cooking".

Definition longer_resume : string := short_resume +:+ " and sql docker".

(** A backend that answers every prompt with the same fenced text. *)
Definition sample_backend : backend := fun _ => Ok "```Tailored resume```".

Definition repr_sample (v : json) : string := "[...]".

Definition files_of (resume_name resume_text job_name job_text : string)
    : gmap string upload :=
  <["resume" := text_upload resume_name (list_byte_of_string resume_text)]>
  (<["job_description" := text_upload job_name (list_byte_of_string job_text)]> ∅).

Definition chat_request (history : json) : gmap string json :=
  <["resume_text" := JStr "CV"]>
  (<["message" := JStr "Tips?"]>
  (<["history" := history]> ∅)).

(* ===================================================================== *)
(** * Properties *)
(* ===================================================================== *)

Section Rne.
Local Open Scope Z_scope.

Lemma rne_scale p q c : 0 < q -> 0 < c -> rne (p * c) (q * c) = rne p q.
Proof.
  intros Hq Hc. unfold rne.
  rewrite Z.div_mul_cancel_r by lia.
  rewrite Z.mul_mod_distr_r by lia.
  destruct (Z.compare_spec (2 * (p mod q * c)) (q * c));
    destruct (Z.compare_spec (2 * (p mod q)) q); try reflexivity; nia.
Qed.

Lemma rne_bounds p q : 0 < q -> p / q <= rne p q <= p / q + 1.
Proof.
  intros Hq. unfold rne.
  destruct (2 * (p mod q) ?= q); destruct (Z.even (p / q)); lia.
Qed.

Lemma rne_exact n q : 0 < q -> rne (n * q) q = n.
Proof.
  intros Hq. unfold rne.
  rewrite Z.div_mul by lia. rewrite Z.mod_mul by lia.
  replace (2 * 0) with 0 by ring.
  destruct (Z.compare_spec 0 q); lia.
Qed.

Lemma rne_mono p1 p2 q : 0 < q -> p1 <= p2 -> rne p1 q <= rne p2 q.
Proof.
  intros Hq Hp.
  assert (Hd : p1 / q <= p2 / q) by (apply Z.div_le_mono; lia).
  destruct (Z.eq_dec (p1 / q) (p2 / q)) as [E|N].
  - assert (Hr : p1 mod q <= p2 mod q).
    { rewrite !Z.mod_eq by lia. rewrite E. lia. }
    unfold rne. rewrite E.
    destruct (Z.compare_spec (2 * (p1 mod q)) q);
      destruct (Z.compare_spec (2 * (p2 mod q)) q);
      destruct (Z.even (p2 / q)); lia.
  - pose proof (rne_bounds p1 q Hq). pose proof (rne_bounds p2 q Hq). lia.
Qed.

Lemma rne_le_int p q n : 0 < q -> p <= n * q -> rne p q <= n.
Proof.
  intros Hq H. rewrite <- (rne_exact n q Hq). apply rne_mono; assumption.
Qed.

Lemma rne_ge_int p q n : 0 < q -> n * q <= p -> n <= rne p q.
Proof.
  intros Hq H. rewrite <- (rne_exact n q Hq). apply rne_mono; assumption.
Qed.

Lemma rne_nonneg p q : 0 < q -> 0 <= p -> 0 <= rne p q.
Proof. intros Hq Hp. apply rne_ge_int; lia. Qed.

End Rne.

Section LatticeFacts.
Import Lattice.
Local Open Scope Z_scope.

Lemma drop_bits_nonneg x : 0 <= drop_bits x.
Proof. unfold drop_bits. lia. Qed.

Lemma drop_bits_mono x y : x <= y -> drop_bits x <= drop_bits y.
Proof. intros H. unfold drop_bits. pose proof (Z.log2_le_mono x y H). lia. Qed.

(** Below the first rounded binade a value has at most 53 bits. *)
Lemma drop_bits_upper x : 0 <= x -> x < 2 ^ (53 + drop_bits x).
Proof.
  intros Hx. unfold drop_bits.
  destruct (Z.eq_dec x 0) as [->|N].
  - apply Z.pow_pos_nonneg; lia.
  - pose proof (Z.log2_nonneg x).
    destruct (Z.log2_spec x ltac:(lia)) as [_ Hu].
    eapply Z.lt_le_trans; [exact Hu|].
    apply Z.pow_le_mono_r; lia.
Qed.

Lemma drop_bits_lower x : 0 < drop_bits x -> 2 ^ (52 + drop_bits x) <= x.
Proof.
  unfold drop_bits. intros H.
  assert (0 < x).
  { destruct (Z_lt_le_dec 0 x); [assumption|].
    rewrite Z.log2_nonpos in H by lia. lia. }
  destruct (Z.log2_spec x ltac:(lia)) as [Hl _].
  replace (52 + Z.max 0 (Z.log2 x - 52)) with (Z.log2 x) by lia. exact Hl.
Qed.

Lemma round_scale P Q c : 0 < Q -> 0 < c -> round (P * c) (Q * c) = round P Q.
Proof.
  intros HQ Hc. unfold round.
  rewrite Z.div_mul_cancel_r by lia.
  set (j := drop_bits (P / Q)).
  replace (Q * c * 2 ^ j) with (Q * 2 ^ j * c) by ring.
  rewrite rne_scale; [reflexivity| |assumption].
  pose proof (drop_bits_nonneg (P / Q)).
  apply Z.mul_pos_pos; [lia|]. apply Z.pow_pos_nonneg; lia.
Qed.

Lemma round_mono_num P1 P2 Q : 0 < Q -> 0 <= P1 -> P1 <= P2 -> round P1 Q <= round P2 Q.
Proof.
  intros HQ H1 H12. unfold round.
  assert (Hx : P1 / Q <= P2 / Q) by (apply Z.div_le_mono; lia).
  assert (Hx1 : 0 <= P1 / Q) by (apply Z.div_pos; lia).
  set (j1 := drop_bits (P1 / Q)). set (j2 := drop_bits (P2 / Q)).
  assert (Hj : j1 <= j2) by (apply drop_bits_mono; exact Hx).
  assert (Hj1 : 0 <= j1) by apply drop_bits_nonneg.
  apply Z.min_le_compat_r.
  destruct (Z.eq_dec j1 j2) as [E|N].
  - rewrite E. apply Z.mul_le_mono_nonneg_r.
    + apply Z.pow_nonneg; lia.
    + apply rne_mono; [|assumption].
      apply Z.mul_pos_pos; [lia|]. apply Z.pow_pos_nonneg; lia.
  - assert (Hlow : 2 ^ (52 + j2) <= P2 / Q) by (apply drop_bits_lower; fold j2; lia).
    assert (Hup : P1 / Q < 2 ^ (53 + j1)) by (apply drop_bits_upper; assumption).
    assert (Hp1 : 0 < 2 ^ j1) by (apply Z.pow_pos_nonneg; lia).
    assert (Hp2 : 0 < 2 ^ j2) by (apply Z.pow_pos_nonneg; lia).
    assert (A : rne P1 (Q * 2 ^ j1) <= 2 ^ 53).
    { apply rne_le_int; [nia|].
      replace (2 ^ 53 * (Q * 2 ^ j1)) with (2 ^ (53 + j1) * Q)
        by (rewrite Z.pow_add_r by lia; ring).
      pose proof (Z.div_mod P1 Q ltac:(lia)).
      pose proof (Z.mod_pos_bound P1 Q HQ). nia. }
    assert (B : 2 ^ 52 <= rne P2 (Q * 2 ^ j2)).
    { apply rne_ge_int; [nia|].
      replace (2 ^ 52 * (Q * 2 ^ j2)) with (Q * 2 ^ (52 + j2))
        by (rewrite Z.pow_add_r by lia; ring).
      pose proof (Z.mul_div_le P2 Q HQ). nia. }
    apply Z.le_trans with (2 ^ 53 * 2 ^ j1).
    + apply Z.mul_le_mono_nonneg_r; lia.
    + apply Z.le_trans with (2 ^ 52 * 2 ^ j2).
      * rewrite <- !Z.pow_add_r by lia. apply Z.pow_le_mono_r; lia.
      * apply Z.mul_le_mono_nonneg_r; lia.
Qed.

Lemma round_mono P1 Q1 P2 Q2 :
  0 < Q1 -> 0 < Q2 -> 0 <= P1 -> P1 * Q2 <= P2 * Q1 -> round P1 Q1 <= round P2 Q2.
Proof.
  intros H1 H2 HP H.
  rewrite <- (round_scale P1 Q1 Q2) by assumption.
  rewrite <- (round_scale P2 Q2 Q1) by assumption.
  replace (Q2 * Q1) with (Q1 * Q2) by ring.
  apply round_mono_num; nia.
Qed.

Lemma round_le_top P Q : round P Q <= top.
Proof. unfold round. apply Z.le_min_r. Qed.

Lemma round_nonneg P Q : 0 < Q -> 0 <= P -> 0 <= round P Q.
Proof.
  intros HQ HP. unfold round.
  pose proof (drop_bits_nonneg (P / Q)).
  apply Z.min_glb; [|unfold top; apply Z.pow_nonneg; lia].
  apply Z.mul_nonneg_nonneg; [|apply Z.pow_nonneg; lia].
  apply rne_nonneg; [|assumption].
  apply Z.mul_pos_pos; [lia|]. apply Z.pow_pos_nonneg; lia.
Qed.

(** A representable value is its own rounding. *)
Lemma round_exact k Q :
  0 < Q -> 0 <= k -> k <= top -> k mod 2 ^ drop_bits k = 0 -> round (k * Q) Q = k.
Proof.
  intros HQ Hk Ht Hm. unfold round.
  rewrite Z.div_mul by lia.
  set (j := drop_bits k) in *.
  assert (Hj : 0 <= j) by apply drop_bits_nonneg.
  assert (Hp : 0 < 2 ^ j) by (apply Z.pow_pos_nonneg; lia).
  pose proof (Z.div_mod k (2 ^ j) ltac:(lia)) as E. rewrite Hm in E.
  assert (Ek : k * Q = k / 2 ^ j * (Q * 2 ^ j)) by nia.
  rewrite Ek. rewrite rne_exact by nia.
  rewrite Z.min_l; lia.
Qed.

End LatticeFacts.

Section Bridge.
Import Lattice.
Local Open Scope Z_scope.

Lemma pow2_pos k : 0 <= k -> 0 < 2 ^ k.
Proof. intros. apply Z.pow_pos_nonneg; lia. Qed.

(** Comparing [x * 2^a] with [y * 2^b] only depends on [a - b]. *)
Lemma pow2_le_shift x y a b a' b' :
  0 <= x -> 0 <= a -> 0 <= b -> 0 <= a' -> 0 <= b' -> a' - b' <= a - b ->
  x * 2 ^ a <= y * 2 ^ b -> x * 2 ^ a' <= y * 2 ^ b'.
Proof.
  intros Hx Ha Hb Ha' Hb' Hd H.
  pose proof (pow2_pos b Hb). pose proof (pow2_pos b' Hb').
  assert (E : x * 2 ^ (a' + b) <= x * 2 ^ (a + b')).
  { apply Z.mul_le_mono_nonneg_l; [assumption|]. apply Z.pow_le_mono_r; lia. }
  rewrite !Z.pow_add_r in E by lia.
  apply Z.mul_le_mono_pos_r with (p := 2 ^ b); [assumption|].
  nia.
Qed.

Lemma pow2_lt_shift x y a b a' b' :
  0 <= x -> 0 <= a -> 0 <= b -> 0 <= a' -> 0 <= b' -> a - b <= a' - b' ->
  y * 2 ^ b < x * 2 ^ a -> y * 2 ^ b' < x * 2 ^ a'.
Proof.
  intros Hx Ha Hb Ha' Hb' Hd H.
  pose proof (pow2_pos b Hb). pose proof (pow2_pos b' Hb').
  assert (E : x * 2 ^ (a + b') <= x * 2 ^ (a' + b)).
  { apply Z.mul_le_mono_nonneg_l; [assumption|]. apply Z.pow_le_mono_r; lia. }
  rewrite !Z.pow_add_r in E by lia.
  apply Z.mul_lt_mono_pos_r with (p := 2 ^ b); [assumption|].
  nia.
Qed.

Ltac gen_pow :=
  repeat match goal with
    | H : context [2 ^ ?k] |- _ => let v := fresh "w" in set (v := 2 ^ k) in *; clearbody v
    | |- context [2 ^ ?k] => let v := fresh "w" in set (v := 2 ^ k) in *; clearbody v
    end.

Ltac fix_max :=
  repeat match goal with
    | |- context [Z.max ?a ?b] =>
        first [rewrite (Z.max_l a b) by lia | rewrite (Z.max_r a b) by lia]
    end.

Lemma ilog2q_base p q :
  0 < p -> 0 < q ->
  let l := ilog2q p q in
  q * 2 ^ Z.max l 0 <= p * 2 ^ Z.max (- l) 0 /\
  p * 2 ^ Z.max (- (l + 1)) 0 < q * 2 ^ Z.max (l + 1) 0.
Proof.
  intros Hp Hq. unfold ilog2q.
  destruct (Z.log2_spec p Hp) as [Lp Up].
  destruct (Z.log2_spec q Hq) as [Lq Uq].
  pose proof (Z.log2_nonneg p). pose proof (Z.log2_nonneg q).
  set (lp := Z.log2 p) in *. set (lq := Z.log2 q) in *.
  rewrite !Z.pow_succ_r in * by lia.
  change (2 ^ 0) with 1.
  destruct (Z.leb_spec 0 (lp - lq)) as [Hd|Hd].
  - assert (E : 2 ^ lp = 2 ^ lq * 2 ^ (lp - lq))
      by (rewrite <- Z.pow_add_r by lia; f_equal; lia).
    pose proof (pow2_pos (lp - lq) Hd).
    destruct (Z.leb_spec (q * 2 ^ (lp - lq)) p) as [Ht|Ht]; cbv zeta.
    + fix_max. rewrite Z.pow_add_r by lia. change (2 ^ 0) with 1. change (2 ^ 1) with 2.
      assert (2 ^ lq * 2 ^ (lp - lq) <= q * 2 ^ (lp - lq))
        by (apply Z.mul_le_mono_nonneg_r; lia).
      gen_pow. split; lia.
    + destruct (Z.eq_dec (lp - lq) 0) as [Z0|NZ].
      * rewrite Z0 in *.
        replace (Z.max (0 - 1) 0) with 0 by lia.
        replace (Z.max (- (0 - 1)) 0) with 1 by lia.
        replace (Z.max (- (0 - 1 + 1)) 0) with 0 by lia.
        replace (Z.max (0 - 1 + 1) 0) with 0 by lia.
        change (2 ^ 0) with 1 in *. change (2 ^ 1) with 2.
        gen_pow; split; nia.
      * fix_max.
        replace (lp - lq - 1 + 1) with (lp - lq) by lia.
        assert (E2 : 2 ^ (lp - lq) = 2 * 2 ^ (lp - lq - 1))
          by (rewrite <- Z.pow_succ_r by lia; f_equal; lia).
        pose proof (pow2_pos (lp - lq - 1) ltac:(lia)).
        change (2 ^ 0) with 1. gen_pow; split; nia.
  - assert (E : 2 ^ lq = 2 ^ lp * 2 ^ (- (lp - lq)))
      by (rewrite <- Z.pow_add_r by lia; f_equal; lia).
    pose proof (pow2_pos (- (lp - lq)) ltac:(lia)).
    assert (E2 : 2 ^ (- (lp - lq)) = 2 * 2 ^ (- (lp - lq) - 1))
      by (rewrite <- Z.pow_succ_r by lia; f_equal; lia).
    pose proof (pow2_pos (- (lp - lq) - 1) ltac:(lia)).
    destruct (Z.leb_spec q (p * 2 ^ (- (lp - lq)))) as [Ht|Ht]; cbv zeta.
    + fix_max.
      replace (- (lp - lq + 1)) with (- (lp - lq) - 1) by lia.
      change (2 ^ 0) with 1. gen_pow; split; nia.
    + fix_max.
      replace (- (lp - lq - 1 + 1)) with (- (lp - lq)) by lia.
      replace (- (lp - lq - 1)) with (Z.succ (- (lp - lq))) by lia.
      rewrite Z.pow_succ_r by lia.
      change (2 ^ 0) with 1. gen_pow; split; nia.
Qed.

Lemma ilog2q_lo p q a b :
  0 < p -> 0 < q -> 0 <= a -> 0 <= b -> a - b <= ilog2q p q ->
  q * 2 ^ a <= p * 2 ^ b.
Proof.
  intros Hp Hq Ha Hb Hd.
  destruct (ilog2q_base p q Hp Hq) as [L _].
  eapply pow2_le_shift; [| | | | | |exact L]; lia.
Qed.

Lemma ilog2q_hi p q a b :
  0 < p -> 0 < q -> 0 <= a -> 0 <= b -> ilog2q p q + 1 <= a - b ->
  p * 2 ^ b < q * 2 ^ a.
Proof.
  intros Hp Hq Ha Hb Hd.
  destruct (ilog2q_base p q Hp Hq) as [_ U].
  eapply pow2_lt_shift; [| | | | | |exact U]; lia.
Qed.

(** The mantissa computed by [Py.round], on the lattice. *)
Lemma mantissa_lattice p q e t D :
  0 < q -> 1074 <= D -> 0 <= e + D -> -1074 <= t ->
  (if e <? t then rne p (q * 2 ^ (t - e)) else rne (p * 2 ^ (e - t)) q)
  = rne (p * 2 ^ (e + D)) (q * 2 ^ (D - 1074) * 2 ^ (t + 1074)).
Proof.
  intros Hq HD He Ht.
  replace (q * 2 ^ (D - 1074) * 2 ^ (t + 1074)) with (q * 2 ^ (D + t))
    by (rewrite <- Z.mul_assoc, <- Z.pow_add_r by lia; do 2 f_equal; lia).
  destruct (Z.ltb_spec e t) as [Hlt|Hge].
  - replace (q * 2 ^ (D + t)) with (q * 2 ^ (t - e) * 2 ^ (e + D))
      by (rewrite <- Z.mul_assoc, <- Z.pow_add_r by lia; do 2 f_equal; lia).
    rewrite rne_scale; [reflexivity| |apply pow2_pos; lia].
    apply Z.mul_pos_pos; [lia|apply pow2_pos; lia].
  - replace (p * 2 ^ (e + D)) with (p * 2 ^ (e - t) * 2 ^ (D + t))
      by (rewrite <- Z.mul_assoc, <- Z.pow_add_r by lia; do 2 f_equal; lia).
    rewrite rne_scale; [reflexivity|lia|apply pow2_pos; lia].
Qed.

(** [Py.round] is rounding to nearest on the lattice. *)
Lemma round_lattice p q e D :
  0 <= p -> 0 < q -> 1074 <= D -> 0 <= e + D ->
  lat (Py.round p q e) = Lattice.round (p * 2 ^ (e + D)) (q * 2 ^ (D - 1074))
  /\ wf (Py.round p q e) /\ Py.round p q e <> NaN.
Proof.
  intros Hp Hq HD He.
  assert (Htop : 0 < top) by (apply pow2_pos; lia).
  set (P := p * 2 ^ (e + D)). set (Q := q * 2 ^ (D - 1074)).
  assert (HQ : 0 < Q) by (apply Z.mul_pos_pos; [lia|apply pow2_pos; lia]).
  unfold Py.round.
  set (t := Z.max (ilog2q p q + e - 52) (-1074)).
  assert (Ht : -1074 <= t) by lia.
  rewrite (mantissa_lattice p q e t D) by assumption. fold P Q.
  set (m := rne P (Q * 2 ^ (t + 1074))).
  assert (HQt : 0 < Q * 2 ^ (t + 1074))
    by (apply Z.mul_pos_pos; [lia|apply pow2_pos; lia]).
  destruct (Z.eq_dec p 0) as [Zp|Np].
  - (* zero *)
    assert (P = 0) by (unfold P; rewrite Zp; ring).
    assert (m = 0) by (unfold m; replace P with (0 * (Q * 2 ^ (t + 1074))) by lia;
                       apply rne_exact; assumption).
    replace (m =? 0) with true by (symmetry; apply Z.eqb_eq; assumption).
    unfold Lattice.round. replace (P / Q) with 0 by (replace P with 0; reflexivity).
    change (drop_bits 0) with 0.
    replace P with (0 * (Q * 2 ^ 0)) by lia. rewrite rne_exact by (change (2 ^ 0) with 1; lia).
    simpl lat. simpl wf. repeat split; try lia. discriminate.
  - assert (Hp' : 0 < p) by lia.
    set (l := ilog2q p q) in *.
    (* the exponent of the last place is the one of the lattice *)
    assert (Hj : drop_bits (P / Q) = t + 1074).
    { unfold drop_bits.
      destruct (Z_lt_le_dec (l + e + 1074) 0) as [Hneg|Hpos].
      - assert (P < Q).
        { unfold P, Q. apply ilog2q_hi; lia. }
        rewrite Z.div_small by (unfold P in *; split; [apply Z.mul_nonneg_nonneg; [lia|apply Z.pow_nonneg; lia]|assumption]).
        change (Z.log2 0) with 0. lia.
      - assert (Z.log2 (P / Q) = l + e + 1074).
        { apply Z.log2_unique; [assumption|]. split.
          - apply Z.div_le_lower_bound; [assumption|].
            unfold P, Q.
            replace (q * 2 ^ (D - 1074) * 2 ^ (l + e + 1074)) with (q * 2 ^ (l + e + D))
              by (rewrite <- Z.mul_assoc, <- Z.pow_add_r by lia; do 2 f_equal; lia).
            apply ilog2q_lo; lia.
          - apply Z.div_lt_upper_bound; [assumption|].
            unfold P, Q.
            replace (q * 2 ^ (D - 1074) * 2 ^ Z.succ (l + e + 1074))
              with (q * 2 ^ (l + e + D + 1))
              by (rewrite <- Z.mul_assoc, <- Z.pow_add_r by lia; do 2 f_equal; lia).
            apply ilog2q_hi; lia. }
        lia. }
    (* the mantissa has at most 53 bits, and 53 in the normal range *)
    assert (Hm53 : m <= 2 ^ 53).
    { apply rne_le_int; [assumption|]. apply Z.lt_le_incl. unfold P, Q.
      replace (2 ^ 53 * (q * 2 ^ (D - 1074) * 2 ^ (t + 1074))) with (q * 2 ^ (53 + D + t))
        by (rewrite (Z.mul_comm (2 ^ 53)), <- !Z.mul_assoc, <- !Z.pow_add_r by lia;
            do 2 f_equal; lia).
      apply ilog2q_hi; lia. }
    assert (Hm52 : -1074 < t -> 2 ^ 52 <= m).
    { intros Hn. apply rne_ge_int; [assumption|]. unfold P, Q.
      replace (2 ^ 52 * (q * 2 ^ (D - 1074) * 2 ^ (t + 1074))) with (q * 2 ^ (52 + D + t))
        by (rewrite (Z.mul_comm (2 ^ 52)), <- !Z.mul_assoc, <- !Z.pow_add_r by lia;
            do 2 f_equal; lia).
      apply ilog2q_lo; lia. }
    assert (Hm0 : 0 <= m) by (apply rne_nonneg; [assumption|];
      unfold P; apply Z.mul_nonneg_nonneg; [lia|apply Z.pow_nonneg; lia]).
    unfold Lattice.round. rewrite Hj. fold m.
    assert (Hpt : 0 < 2 ^ (t + 1074)) by (apply pow2_pos; lia).
    destruct (Z.eqb_spec m 0) as [M0|M0].
    + rewrite M0. simpl lat. simpl wf. repeat split; try lia. discriminate.
    + destruct (Z.eqb_spec m (2 ^ 53)) as [M53|M53].
      * destruct (Z.ltb_spec 971 (t + 1)) as [Hov|Hin].
        -- simpl lat. simpl wf. repeat split; try discriminate.
           rewrite Z.min_r; [reflexivity|].
           rewrite M53, <- Z.pow_add_r by lia. unfold top. apply Z.pow_le_mono_r; lia.
        -- simpl lat. simpl wf.
           assert (E : 2 ^ 52 * 2 ^ (t + 1 + 1074) = m * 2 ^ (t + 1074)).
           { rewrite M53, <- !Z.pow_add_r by lia. f_equal. lia. }
           assert (B : 2 ^ 52 * 2 ^ (t + 1 + 1074) < top).
           { rewrite <- Z.pow_add_r by lia. unfold top. apply Z.pow_lt_mono_r; lia. }
           pose proof (pow2_pos 52 ltac:(lia)).
           repeat split; try lia; try discriminate.
      * destruct (Z.ltb_spec 971 t) as [Hov|Hin].
        -- simpl lat. simpl wf. repeat split; try discriminate.
           rewrite Z.min_r; [reflexivity|].
           apply Z.le_trans with (2 ^ 52 * 2 ^ (t + 1074)).
           ++ rewrite <- Z.pow_add_r by lia. unfold top. apply Z.pow_le_mono_r; lia.
           ++ apply Z.mul_le_mono_nonneg_r; [lia|]. apply Hm52. lia.
        -- simpl lat. simpl wf.
           assert (B : m * 2 ^ (t + 1074) < top).
           { apply Z.lt_le_trans with (2 ^ 53 * 2 ^ (t + 1074)).
             - apply Z.mul_lt_mono_pos_r; lia.
             - rewrite <- Z.pow_add_r by lia. unfold top. apply Z.pow_le_mono_r; lia. }
           repeat split; try lia; try discriminate.
Qed.
End Bridge.

Section FloatOps.
Import Lattice.
Local Open Scope Z_scope.

Lemma top_pos : 0 < top.
Proof. apply pow2_pos. lia. Qed.

Lemma scale_pos : 0 < scale.
Proof. apply pow2_pos. lia. Qed.

Lemma wf_lat_bounds x : wf x -> 0 <= lat x <= top.
Proof.
  pose proof top_pos.
  destruct x as [m e| |]; simpl; intros Hx; [|lia|contradiction].
  destruct Hx as (Hm & He & Hlt). split; [|lia].
  apply Z.mul_nonneg_nonneg; [lia|]. apply Z.pow_nonneg. lia.
Qed.

(** Below [top] a well-formed float is finite. *)
Lemma wf_lt_top_finite x : wf x -> lat x < top -> exists m e, x = Fin m e.
Proof.
  destruct x as [m e| |]; simpl; intros Hx Hlt; try lia. eauto.
Qed.

Lemma round_int_lattice a b :
  0 <= a -> 0 < b ->
  lat (Py.round a b 0) = Lattice.round (a * scale) b /\ wf (Py.round a b 0).
Proof.
  intros Ha Hb.
  destruct (round_lattice a b 0 1074 Ha Hb ltac:(lia) ltac:(lia)) as (E & W & _).
  split; [|exact W]. rewrite E. unfold scale.
  replace (1074 - 1074) with 0 by lia. change (2 ^ 0) with 1.
  f_equal; lia.
Qed.

Lemma fmul_lattice m1 e1 m2 e2 :
  wf (Fin m1 e1) -> wf (Fin m2 e2) ->
  lat (fmul (Fin m1 e1) (Fin m2 e2))
  = Lattice.round (lat (Fin m1 e1) * lat (Fin m2 e2)) scale
  /\ wf (fmul (Fin m1 e1) (Fin m2 e2)).
Proof.
  intros (H1 & E1 & _) (H2 & E2 & _). simpl fmul.
  destruct (round_lattice (m1 * m2) 1 (e1 + e2) 2148 ltac:(nia) ltac:(lia) ltac:(lia) ltac:(lia))
    as (E & W & _).
  split; [|exact W]. rewrite E. simpl lat. unfold scale.
  replace (2148 - 1074) with 1074 by lia.
  f_equal; try lia.
  replace (e1 + e2 + 2148) with ((e1 + 1074) + (e2 + 1074)) by lia.
  rewrite Z.pow_add_r by lia. ring.
Qed.

Lemma fadd_lattice m1 e1 m2 e2 :
  wf (Fin m1 e1) -> wf (Fin m2 e2) ->
  lat (fadd (Fin m1 e1) (Fin m2 e2))
  = Lattice.round (lat (Fin m1 e1) + lat (Fin m2 e2)) 1
  /\ wf (fadd (Fin m1 e1) (Fin m2 e2)).
Proof.
  intros (H1 & E1 & _) (H2 & E2 & _). simpl fadd.
  set (e := Z.min e1 e2).
  assert (0 <= m1 * 2 ^ (e1 - e) + m2 * 2 ^ (e2 - e)).
  { apply Z.add_nonneg_nonneg; apply Z.mul_nonneg_nonneg; try lia;
      apply Z.pow_nonneg; lia. }
  destruct (round_lattice (m1 * 2 ^ (e1 - e) + m2 * 2 ^ (e2 - e)) 1 e 1074
              ltac:(assumption) ltac:(lia) ltac:(lia) ltac:(lia)) as (E & W & _).
  split; [|exact W]. rewrite E. simpl lat.
  replace (1074 - 1074) with 0 by lia. change (2 ^ 0) with 1.
  f_equal; try lia.
  rewrite Z.mul_add_distr_r, <- !Z.mul_assoc, <- !Z.pow_add_r by lia.
  f_equal; do 2 f_equal; lia.
Qed.

(** [int(x)] is the integer part of the lattice value. *)
Lemma shiftl_lat m e : 0 <= m -> -1074 <= e -> Z.shiftl m e = lat (Fin m e) / scale.
Proof.
  intros Hm He. simpl lat. unfold scale.
  destruct (Z_le_gt_dec 0 e) as [Hp|Hn].
  - rewrite Z.shiftl_mul_pow2 by lia.
    rewrite Z.pow_add_r by lia. rewrite Z.mul_assoc.
    rewrite Z.div_mul by (pose proof (pow2_pos 1074); lia). reflexivity.
  - rewrite Z.shiftl_div_pow2 by lia.
    replace (2 ^ 1074) with (2 ^ (- e) * 2 ^ (e + 1074))
      by (rewrite <- Z.pow_add_r by lia; f_equal; lia).
    rewrite Z.div_mul_cancel_r; [reflexivity| |];
      pose proof (pow2_pos (- e)); pose proof (pow2_pos (e + 1074)); lia.
Qed.

(** Normalised floats are representable on the lattice. *)
Lemma lat_representable m e :
  0 <= m < 2 ^ 53 -> -1074 <= e ->
  lat (Fin m e) mod 2 ^ drop_bits (lat (Fin m e)) = 0.
Proof.
  intros [Hm Hm53] He. simpl lat.
  destruct (Z.eq_dec m 0) as [->|Nm]; [rewrite Z.mul_0_l; apply Z.mod_0_l;
    pose proof (pow2_pos (drop_bits 0) (drop_bits_nonneg 0)); lia|].
  set (k := e + 1074). assert (0 <= k) by lia.
  assert (Hl : Z.log2 (m * 2 ^ k) = k + Z.log2 m) by (apply Z.log2_mul_pow2; lia).
  assert (Z.log2 m < 53) by (apply Z.log2_lt_pow2; lia).
  pose proof (Z.log2_nonneg m).
  unfold drop_bits. rewrite Hl.
  set (j := Z.max 0 (k + Z.log2 m - 52)).
  replace (m * 2 ^ k) with (m * 2 ^ (k - j) * 2 ^ j)
    by (rewrite <- Z.mul_assoc, <- Z.pow_add_r by lia; do 2 f_equal; lia).
  apply Z.mod_mul. pose proof (pow2_pos j). lia.
Qed.

(** Rounding a representable product or quotient gives it back. *)
Lemma round_exact_fin m e Q :
  0 < Q -> 0 <= m < 2 ^ 53 -> -1074 <= e -> lat (Fin m e) <= top ->
  Lattice.round (lat (Fin m e) * Q) Q = lat (Fin m e).
Proof.
  intros HQ Hm He Ht. apply round_exact; try assumption.
  - simpl. apply Z.mul_nonneg_nonneg; [lia|apply Z.pow_nonneg; lia].
  - apply lat_representable; assumption.
Qed.

End FloatOps.

Section FloatBounds.
Import Lattice.
Local Open Scope Z_scope.

(** Monotonicity of the operations, on the lattice. *)
Lemma round_int_mono a b a' b' :
  0 <= a -> 0 < b -> 0 < b' -> a * b' <= a' * b ->
  lat (Py.round a b 0) <= lat (Py.round a' b' 0).
Proof.
  intros Ha Hb Hb' H.
  assert (Ha' : 0 <= a') by nia.
  destruct (round_int_lattice a b Ha Hb) as [-> _].
  destruct (round_int_lattice a' b' Ha' Hb') as [-> _].
  pose proof scale_pos.
  apply round_mono; try assumption; nia.
Qed.

Lemma fmul_mono m1 e1 m2 e2 m1' e1' m2' e2' :
  wf (Fin m1 e1) -> wf (Fin m2 e2) -> wf (Fin m1' e1') -> wf (Fin m2' e2') ->
  lat (Fin m1 e1) <= lat (Fin m1' e1') -> lat (Fin m2 e2) <= lat (Fin m2' e2') ->
  lat (fmul (Fin m1 e1) (Fin m2 e2)) <= lat (fmul (Fin m1' e1') (Fin m2' e2')).
Proof.
  intros W1 W2 W1' W2' L1 L2.
  destruct (fmul_lattice _ _ _ _ W1 W2) as [-> _].
  destruct (fmul_lattice _ _ _ _ W1' W2') as [-> _].
  pose proof (wf_lat_bounds _ W1). pose proof (wf_lat_bounds _ W2).
  pose proof (wf_lat_bounds _ W1'). pose proof (wf_lat_bounds _ W2').
  pose proof scale_pos.
  assert (0 <= lat (Fin m1 e1) * lat (Fin m2 e2)) by (apply Z.mul_nonneg_nonneg; lia).
  assert (lat (Fin m1 e1) * lat (Fin m2 e2) <= lat (Fin m1' e1') * lat (Fin m2' e2'))
    by (apply Z.mul_le_mono_nonneg; lia).
  apply round_mono_num; assumption.
Qed.

Lemma fadd_mono m1 e1 m2 e2 m1' e1' m2' e2' :
  wf (Fin m1 e1) -> wf (Fin m2 e2) -> wf (Fin m1' e1') -> wf (Fin m2' e2') ->
  lat (Fin m1 e1) <= lat (Fin m1' e1') -> lat (Fin m2 e2) <= lat (Fin m2' e2') ->
  lat (fadd (Fin m1 e1) (Fin m2 e2)) <= lat (fadd (Fin m1' e1') (Fin m2' e2')).
Proof.
  intros W1 W2 W1' W2' L1 L2.
  destruct (fadd_lattice _ _ _ _ W1 W2) as [-> _].
  destruct (fadd_lattice _ _ _ _ W1' W2') as [-> _].
  pose proof (wf_lat_bounds _ W1). pose proof (wf_lat_bounds _ W2).
  apply round_mono_num; lia.
Qed.

Lemma int_of_float_mono m e m' e' :
  wf (Fin m e) -> wf (Fin m' e') -> lat (Fin m e) <= lat (Fin m' e') ->
  0 <= Z.shiftl m e <= Z.shiftl m' e'.
Proof.
  intros (H1 & H2 & _) (H1' & H2' & _) L.
  rewrite !shiftl_lat by assumption.
  pose proof scale_pos. split.
  - apply Z.div_pos; [|assumption]. simpl.
    apply Z.mul_nonneg_nonneg; [lia|apply Z.pow_nonneg; lia].
  - apply Z.div_le_mono; assumption.
Qed.


Lemma wf_const m e :
  (0 <=? m) && (m <? 2 ^ 53) && (-1074 <=? e) && (e <=? 971) = true -> wf (Fin m e).
Proof.
  intros H. repeat (apply andb_prop in H; destruct H as [H ?]).
  apply Z.leb_le in H. apply Z.ltb_lt in H2. apply Z.leb_le in H1. apply Z.leb_le in H0.
  simpl. repeat split; try assumption.
  apply Z.lt_le_trans with (2 ^ 53 * 2 ^ (e + 1074)).
  - apply Z.mul_lt_mono_pos_r; [apply pow2_pos; lia|assumption].
  - rewrite <- Z.pow_add_r by lia. unfold top. apply Z.pow_le_mono_r; lia.
Qed.

Lemma float_of_int_100 : float_of_int 100 = Ok hundred.
Proof. vm_compute. reflexivity. Qed.


Lemma wf_hundred : wf hundred.
Proof. apply wf_const. vm_compute. reflexivity. Qed.

Lemma lat_one : lat one = scale.
Proof. vm_compute. reflexivity. Qed.

Lemma lat_hundred : lat hundred = 100 * scale.
Proof. vm_compute. reflexivity. Qed.

(** [m / n <= 1.0] for [m <= n]. *)
Lemma truediv_le_one m n :
  0 <= m <= n -> 0 < n ->
  exists mq eq, truediv m n = Ok (Fin mq eq) /\ wf (Fin mq eq) /\ lat (Fin mq eq) <= scale.
Proof.
  intros Hm Hn. unfold truediv.
  destruct (Z.eqb_spec n 0); [lia|].
  destruct (round_int_lattice m n ltac:(lia) Hn) as [E W].
  assert (L : lat (Py.round m n 0) <= scale).
  { rewrite E. apply Z.le_trans with (Lattice.round (lat one * n) n).
    - rewrite lat_one. pose proof scale_pos. apply round_mono_num; nia.
    - unfold one. rewrite round_exact_fin; try lia.
      + fold one. rewrite lat_one. lia.
      + fold one. rewrite lat_one. unfold scale, top. apply Z.pow_le_mono_r; lia. }
  assert (T : scale < top) by (unfold scale, top; apply Z.pow_lt_mono_r; lia).
  destruct (wf_lt_top_finite _ W ltac:(lia)) as (mq & eq & Heq).
  rewrite Heq in *. eauto.
Qed.

(** [x * 100 <= 100.0] for [x <= 1.0]. *)
Lemma fmul_hundred_le m e :
  wf (Fin m e) -> lat (Fin m e) <= scale ->
  exists mp ep, fmul_int (Fin m e) 100 = Ok (Fin mp ep) /\ wf (Fin mp ep)
                /\ lat (Fin mp ep) <= lat hundred.
Proof.
  intros W L. unfold fmul_int. rewrite float_of_int_100. simpl mbind. unfold mret, res_ret.
  destruct (fmul_lattice m e _ _ W wf_hundred) as [E Wp]. fold hundred in E, Wp.
  assert (Lp : lat (fmul (Fin m e) hundred) <= lat hundred).
  { rewrite E. apply Z.le_trans with (Lattice.round (lat hundred * scale) scale).
    - pose proof (wf_lat_bounds _ W). pose proof (wf_lat_bounds _ wf_hundred).
      pose proof scale_pos.
      assert (0 <= lat (Fin m e) * lat hundred) by (apply Z.mul_nonneg_nonneg; lia).
      assert (lat (Fin m e) * lat hundred <= lat hundred * scale)
        by (rewrite (Z.mul_comm (lat hundred)); apply Z.mul_le_mono_nonneg_r; lia).
      apply round_mono_num; assumption.
    - unfold hundred. rewrite round_exact_fin; try lia.
      + apply scale_pos.
      + apply (wf_lat_bounds _ wf_hundred). }
  assert (T : lat hundred < top) by (vm_compute; reflexivity).
  destruct (wf_lt_top_finite _ Wp ltac:(lia)) as (mp & ep & Hp).
  exists mp, ep. rewrite <- Hp. split; [reflexivity|split; assumption].
Qed.

Lemma bind_Ok {A B} (a : A) (f : A -> res B) : (x ← Ok a; f x) = f a.
Proof. reflexivity. Qed.

Lemma bind_Raise {A B} (e : exn) (f : A -> res B) : (x ← Raise e; f x) = Raise e.
Proof. reflexivity. Qed.

(** The percentage of the specification lies in [0, 100]. *)
Lemma truncated_percent_bounds m n :
  0 <= m <= n -> 0 < n -> exists v, truncated_percent m n = Ok v /\ 0 <= v <= 100.
Proof.
  intros Hm Hn. unfold truncated_percent.
  destruct (truediv_le_one m n Hm Hn) as (mq & eq & -> & Wq & Lq). rewrite bind_Ok.
  destruct (fmul_hundred_le mq eq Wq Lq) as (mp & ep & -> & Wp & Lp). rewrite bind_Ok.
  simpl int_of_float.
  eexists; split; [reflexivity|].
  pose proof (int_of_float_mono mp ep _ _ Wp wf_hundred Lp) as B.
  change (Z.shiftl 7036874417766400 (-46)) with 100 in B. exact B.
Qed.
End FloatBounds.

Section ScoreArithmetic.
Import Lattice.
Local Open Scope Z_scope.

Lemma wf_lat_lt m e : wf (Fin m e) -> lat (Fin m e) < top.
Proof. intros (_ & _ & H). exact H. Qed.

(** [float(n)] for [0 <= n <= 100]. *)
Lemma float_of_int_le_hundred n :
  0 <= n <= 100 ->
  exists m e, float_of_int n = Ok (Fin m e) /\ wf (Fin m e) /\ lat (Fin m e) <= lat hundred.
Proof.
  intros Hn. unfold float_of_int.
  destruct (round_int_lattice n 1 ltac:(lia) ltac:(lia)) as [E W].
  assert (L : lat (Py.round n 1 0) <= lat hundred).
  { replace hundred with (Py.round 100 1 0) by (vm_compute; reflexivity).
    apply round_int_mono; lia. }
  assert (T : lat hundred < top) by (vm_compute; reflexivity).
  destruct (wf_lt_top_finite _ W ltac:(lia)) as (m & e & Hr).
  rewrite Hr in *. exists m, e. auto.
Qed.

(** [n * c] for [0 <= n <= 100] is at most [100 * c]. *)
Lemma int_mul_float_le n mc ec mu eu :
  0 <= n <= 100 -> wf (Fin mc ec) -> fmul hundred (Fin mc ec) = Fin mu eu ->
  exists m e, int_mul_float n (Fin mc ec) = Ok (Fin m e) /\ wf (Fin m e)
              /\ lat (Fin m e) <= lat (Fin mu eu).
Proof.
  intros Hn Wc Hu. unfold int_mul_float.
  destruct (float_of_int_le_hundred n Hn) as (m0 & e0 & -> & W0 & L0). rewrite bind_Ok.
  destruct (fmul_lattice m0 e0 mc ec W0 Wc) as [_ W].
  assert (L : lat (fmul (Fin m0 e0) (Fin mc ec)) <= lat (Fin mu eu)).
  { rewrite <- Hu. apply fmul_mono; try assumption; [apply wf_hundred|lia]. }
  assert (Wu : wf (Fin mu eu)).
  { rewrite <- Hu. apply (fmul_lattice _ _ mc ec wf_hundred Wc). }
  assert (T : lat (Fin mu eu) < top) by (apply wf_lat_lt; assumption).
  destruct (wf_lt_top_finite _ W ltac:(lia)) as (m & e & Hr).
  exists m, e. unfold mret, res_ret. rewrite <- Hr. auto.
Qed.

(** A sum of floats below two bounds is below the sum of the bounds. *)
Lemma fadd_le m1 e1 m2 e2 a1 b1 a2 b2 mu eu :
  wf (Fin m1 e1) -> wf (Fin m2 e2) -> wf (Fin a1 b1) -> wf (Fin a2 b2) ->
  lat (Fin m1 e1) <= lat (Fin a1 b1) -> lat (Fin m2 e2) <= lat (Fin a2 b2) ->
  fadd (Fin a1 b1) (Fin a2 b2) = Fin mu eu ->
  exists m e, fadd (Fin m1 e1) (Fin m2 e2) = Fin m e /\ wf (Fin m e)
              /\ lat (Fin m e) <= lat (Fin mu eu) /\ wf (Fin mu eu).
Proof.
  intros W1 W2 Wa Wb L1 L2 Hu.
  destruct (fadd_lattice m1 e1 m2 e2 W1 W2) as [_ W].
  assert (L : lat (fadd (Fin m1 e1) (Fin m2 e2)) <= lat (Fin mu eu)).
  { rewrite <- Hu. apply fadd_mono; assumption. }
  assert (Wu : wf (Fin mu eu)).
  { rewrite <- Hu. apply (fadd_lattice _ _ _ _ Wa Wb). }
  assert (T : lat (Fin mu eu) < top) by (apply wf_lat_lt; assumption).
  destruct (wf_lt_top_finite _ W ltac:(lia)) as (m & e & Hr).
  exists m, e. rewrite <- Hr. auto.
Qed.

Lemma wf_literal p q : 0 <= p -> 0 < q -> wf (literal p q).
Proof. intros. apply round_int_lattice; assumption. Qed.

(** The overall score of four percentages is a percentage. *)
Lemma overall_of_bounds s e k t :
  0 <= s <= 100 -> 0 <= e <= 100 -> 0 <= k <= 100 -> 0 <= t <= 100 ->
  exists o, overall_of s e k t = Ok o /\ 0 <= o <= 100.
Proof.
  intros Hs He Hk Ht. unfold overall_of.
  replace (literal 4 10) with (Fin 7205759403792794 (-54)) by (vm_compute; reflexivity).
  replace (literal 3 10) with (Fin 5404319552844595 (-54)) by (vm_compute; reflexivity).
  replace (literal 2 10) with (Fin 7205759403792794 (-55)) by (vm_compute; reflexivity).
  replace (literal 1 10) with (Fin 7205759403792794 (-56)) by (vm_compute; reflexivity).
  destruct (int_mul_float_le s 7205759403792794 (-54) 5629499534213120 (-47) Hs)
    as (ma & ea & -> & Wa & La);
    [apply wf_const; vm_compute; reflexivity|vm_compute; reflexivity|]. rewrite bind_Ok.
  destruct (int_mul_float_le e 5404319552844595 (-54) 8444249301319680 (-48) He)
    as (mb & eb & -> & Wb & Lb);
    [apply wf_const; vm_compute; reflexivity|vm_compute; reflexivity|]. rewrite bind_Ok.
  destruct (int_mul_float_le k 7205759403792794 (-55) 5629499534213120 (-48) Hk)
    as (mc & ec & -> & Wc & Lc);
    [apply wf_const; vm_compute; reflexivity|vm_compute; reflexivity|]. rewrite bind_Ok.
  destruct (int_mul_float_le t 7205759403792794 (-56) 5629499534213120 (-49) Ht)
    as (md & ed & -> & Wd & Ld);
    [apply wf_const; vm_compute; reflexivity|vm_compute; reflexivity|]. rewrite bind_Ok.
  assert (W40 : wf (Fin 5629499534213120 (-47))) by (apply wf_const; vm_compute; reflexivity).
  assert (W30 : wf (Fin 8444249301319680 (-48))) by (apply wf_const; vm_compute; reflexivity).
  assert (W20 : wf (Fin 5629499534213120 (-48))) by (apply wf_const; vm_compute; reflexivity).
  assert (W10 : wf (Fin 5629499534213120 (-49))) by (apply wf_const; vm_compute; reflexivity).
  assert (S70 : fadd (Fin 5629499534213120 (-47)) (Fin 8444249301319680 (-48))
                = Fin 4925812092436480 (-46)) by (vm_compute; reflexivity).
  assert (S90 : fadd (Fin 4925812092436480 (-46)) (Fin 5629499534213120 (-48))
                = Fin 6333186975989760 (-46)) by (vm_compute; reflexivity).
  assert (S100 : fadd (Fin 6333186975989760 (-46)) (Fin 5629499534213120 (-49))
                 = Fin 7036874417766400 (-46)) by (vm_compute; reflexivity).
  destruct (fadd_le ma ea mb eb _ _ _ _ _ _ Wa Wb W40 W30 La Lb S70)
    as (m1 & e1 & -> & W1 & L1 & U1).
  destruct (fadd_le m1 e1 mc ec _ _ _ _ _ _ W1 Wc U1 W20 L1 Lc S90)
    as (m2 & e2 & -> & W2 & L2 & U2).
  destruct (fadd_le m2 e2 md ed _ _ _ _ _ _ W2 Wd U2 W10 L2 Ld S100)
    as (m3 & e3 & -> & W3 & L3 & U3).
  simpl int_of_float. eexists; split; [reflexivity|].
  pose proof (int_of_float_mono m3 e3 _ _ W3 U3 L3) as B.
  change (Z.shiftl 7036874417766400 (-46)) with 100 in B. exact B.
Qed.


(** Whatever it returns is a percentage. *)
Lemma experience_value_bounds years v :
  0 < years -> experience_value years = Ok v -> 0 <= v <= 100.
Proof.
  intros Hy. unfold experience_value, truediv. simpl (10 =? 0).
  destruct (round_int_lattice years 10 ltac:(lia) ltac:(lia)) as [_ Wq].
  destruct (Py.round years 10 0) as [mq eq| |] eqn:Eq; [|discriminate|contradiction].
  rewrite bind_Ok. unfold fmul_int. rewrite float_of_int_100, bind_Ok.
  unfold mret at 1, res_ret at 1. rewrite bind_Ok.
  destruct (fmul_lattice mq eq _ _ Wq wf_hundred) as [_ Wp]. fold hundred in Wp.
  destruct (fmul (Fin mq eq) hundred) as [mp ep| |] eqn:Ep; [|discriminate|contradiction].
  simpl int_of_float. rewrite bind_Ok. unfold mret, res_ret.
  intros [= <-].
  destruct Wp as (Hm & _ & _).
  pose proof (proj2 (Z.shiftl_nonneg mp ep) Hm). lia.
Qed.



(** Past the range of [float] the conversion to [int] raises. *)
Lemma experience_value_overflow years :
  10 ^ 308 <= years -> exists e, experience_value years = Raise e.
Proof.
  intros Hy. unfold experience_value, truediv. simpl (10 =? 0).
  assert (P308 : 0 < 10 ^ 308) by (apply Z.pow_pos_nonneg; lia).
  destruct (round_int_lattice years 10 ltac:(lia) ltac:(lia)) as [_ Wq].
  assert (Lq : lat (Fin 8016673440035891 967) <= lat (Py.round years 10 0)).
  { replace (Fin 8016673440035891 967) with (Py.round (10 ^ 308) 10 0)
      by (vm_compute; reflexivity).
    apply round_int_mono; lia. }
  destruct (Py.round years 10 0) as [mq eq| |] eqn:Eq; [|eauto|contradiction].
  rewrite bind_Ok. unfold fmul_int. rewrite float_of_int_100, bind_Ok.
  unfold mret at 1, res_ret at 1. rewrite bind_Ok.
  assert (Wc : wf (Fin 8016673440035891 967)) by (apply wf_const; vm_compute; reflexivity).
  destruct (fmul_lattice mq eq _ _ Wq wf_hundred) as [_ Wp]. fold hundred in Wp.
  assert (Lp : top <= lat (fmul (Fin mq eq) hundred)).
  { change top with (lat PInf).
    replace PInf with (fmul (Fin 8016673440035891 967) hundred) by (vm_compute; reflexivity).
    apply fmul_mono; try assumption; try apply wf_hundred; lia. }
  destruct (fmul (Fin mq eq) hundred) as [mp ep| |] eqn:Ep; [|eauto|contradiction].
  pose proof (wf_lat_lt _ _ Wp). lia.
Qed.
End ScoreArithmetic.

Section Strings.

Lemma app_nil (s : string) : EmptyString +:+ s = s.
Proof. reflexivity. Qed.

Lemma app_cons (c : ascii) (a b : string) : String c a +:+ b = String c (a +:+ b).
Proof. reflexivity. Qed.

Lemma append_empty_r (s : string) : s +:+ EmptyString = s.
Proof. induction s as [|c s IH]; [reflexivity|]. rewrite app_cons, IH. reflexivity. Qed.

Lemma append_assoc' (a b c : string) : (a +:+ b) +:+ c = a +:+ (b +:+ c).
Proof. induction a as [|x a IH]; [reflexivity|]. rewrite !app_cons, IH. reflexivity. Qed.

Lemma append_length (a b : string) :
  String.length (a +:+ b) = (String.length a + String.length b)%nat.
Proof. induction a as [|x a IH]; [reflexivity|]. rewrite app_cons. simpl. rewrite IH. reflexivity. Qed.

Lemma substring_prefix (a b : string) : substring 0 (String.length a) (a +:+ b) = a.
Proof.
  induction a as [|x a IH].
  - rewrite app_nil. destruct b; reflexivity.
  - rewrite app_cons. simpl. rewrite IH. reflexivity.
Qed.


Lemma take_skip p s : take_while p s +:+ skip_while p s = s.
Proof.
  induction s as [|c s IH]; simpl; [reflexivity|].
  destruct (p c); [rewrite app_cons, IH|]; reflexivity.
Qed.

Lemma skip_while_head p s :
  match skip_while p s with String c _ => p c = false | EmptyString => True end.
Proof.
  induction s as [|c s IH]; simpl; [exact I|].
  destruct (p c) eqn:E; [exact IH|exact E].
Qed.

Lemma skip_while_length p s : (String.length (skip_while p s) <= String.length s)%nat.
Proof.
  induction s as [|c s IH]; simpl; [lia|]. destruct (p c); simpl; lia.
Qed.

Lemma all_chars_take_while p s : all_chars p (take_while p s) = true.
Proof.
  induction s as [|c s IH]; simpl; [reflexivity|].
  destruct (p c) eqn:E; simpl; [rewrite E; exact IH|reflexivity].
Qed.


(** [runs] reads one run and starts again after it. *)
Lemma runs_step p cur s :
  runs p cur s = emit (cur +:+ take_while p s) ++ runs p EmptyString (skip_while p s).
Proof.
  revert cur. induction s as [|c s IH]; intros cur; simpl.
  - rewrite append_empty_r, app_nil_r. destruct cur; reflexivity.
  - destruct (p c) eqn:E.
    + rewrite IH. rewrite append_assoc', app_cons, app_nil. reflexivity.
    + rewrite append_empty_r. simpl. rewrite E. destruct cur; reflexivity.
Qed.

Lemma is_az_word c : is_az c = true -> is_word c = true.
Proof.
  unfold is_az, is_word. intros ->. rewrite !orb_true_r. reflexivity.
Qed.

End Strings.

Section WordPattern.


(** After a letter, [[a-z]+\b] reads all the letters that follow and
    succeeds only if no word character comes next: giving back letters
    does not help, since between two letters there is no boundary. *)
Lemma star_loop_letters c s cap :
  is_word c = true ->
  Re.star_loop is_az (Some c) s cap
    (after_letters (fun _ rest cap' => Some (rest, cap')))
  = if Re.is_word_opt (Re.head (skip_while is_az s)) then None
    else Some (skip_while is_az s, cap).
Proof.
  revert c. induction s as [|d s IH]; intros c Hc; cbn [Re.star_loop skip_while].
  - unfold after_letters, Re.word_boundary. cbn [Re.exec Re.head Re.is_word_opt].
    unfold Re.word_boundary. cbn [Re.head Re.is_word_opt]. rewrite Hc. reflexivity.
  - destruct (is_az d) eqn:Ad.
    + rewrite (IH d (is_az_word d Ad)).
      unfold after_letters. cbn [Re.exec]. unfold Re.word_boundary.
      cbn [Re.head Re.is_word_opt]. rewrite Hc, (is_az_word d Ad). cbn [xorb].
      destruct (Re.is_word_opt (Re.head (skip_while is_az s))); reflexivity.
    + unfold after_letters. cbn [Re.exec]. unfold Re.word_boundary.
      cbn [Re.head Re.is_word_opt]. rewrite Hc. cbn [xorb].
      destruct (is_word d); reflexivity.
Qed.

(** A match of [\b[a-z]+\b] at the current position. *)
Lemma match_at_word prev s :
  Re.match_at word_pattern prev s =
  if Re.word_boundary prev s then
    match s with
    | String c s' =>
        if is_az c then
          if Re.is_word_opt (Re.head (skip_while is_az s')) then None
          else Some (skip_while is_az s', None)
        else None
    | EmptyString => None
    end
  else None.
Proof.
  unfold Re.match_at, word_pattern. cbn [Re.seq_of Re.exec].
  destruct (Re.word_boundary prev s); [|reflexivity].
  destruct s as [|c s']; [reflexivity|].
  destruct (is_az c) eqn:Ac; [|reflexivity].
  apply (star_loop_letters c s' None), is_az_word, Ac.
Qed.


Lemma last_of_word w prev :
  all_chars is_word w = true -> Re.is_word_opt prev = true ->
  Re.is_word_opt (last_of w prev) = true.
Proof.
  revert prev. induction w as [|c w IH]; intros prev Hw Hp; simpl in *; [exact Hp|].
  apply andb_prop in Hw as [Hc Hw]. apply IH; assumption.
Qed.

(** Inside a word nothing matches. *)
Lemma scan_inside w r prev :
  all_chars is_word w = true -> Re.is_word_opt prev = true ->
  Re.findall_scan word_pattern prev (w +:+ r) 0
  = Re.findall_scan word_pattern (last_of w prev) r 0.
Proof.
  revert prev. induction w as [|c w IH]; intros prev Hw Hp; [reflexivity|].
  simpl in Hw. apply andb_prop in Hw as [Hc Hw].
  rewrite app_cons. cbn [Re.findall_scan].
  rewrite match_at_word. unfold Re.word_boundary. cbn [Re.head Re.is_word_opt].
  rewrite Hp, Hc. cbn [xorb]. cbn [last_of]. apply IH; assumption.
Qed.

(** Skipping the characters of a match. *)
Lemma scan_skip w r prev :
  Re.findall_scan word_pattern prev (w +:+ r) (String.length w)
  = Re.findall_scan word_pattern (last_of w prev) r 0.
Proof.
  revert prev. induction w as [|c w IH]; intros prev; [reflexivity|].
  rewrite app_cons. cbn [Re.findall_scan String.length last_of]. apply IH.
Qed.

Lemma skip_while_all p w r :
  all_chars p w = true ->
  match r with String d _ => p d = false | EmptyString => True end ->
  skip_while p (w +:+ r) = r.
Proof.
  intros Hw Hr. induction w as [|c w IH].
  - rewrite app_nil. destruct r as [|d r]; [reflexivity|]. simpl. rewrite Hr. reflexivity.
  - simpl in Hw. apply andb_prop in Hw as [Hc Hw].
    rewrite app_cons. simpl. rewrite Hc. apply IH, Hw.
Qed.

(** In a word that is not made of letters only, the letters stop at a
    word character. *)
Lemma skip_while_stops w r :
  all_chars is_word w = true -> all_chars is_az w = false ->
  Re.is_word_opt (Re.head (skip_while is_az (w +:+ r))) = true.
Proof.
  intros Hw Ha. induction w as [|c w IH]; [discriminate|].
  simpl in Hw, Ha. apply andb_prop in Hw as [Hc Hw].
  rewrite app_cons. simpl. destruct (is_az c) eqn:Ac.
  - simpl in Ha. apply IH; assumption.
  - simpl. exact Hc.
Qed.

Abbreviation letters_only := (fun w : string => all_chars is_az w = true).

Lemma findall_word_runs_aux n :
  forall s prev,
    (String.length s <= n)%nat ->
    Re.is_word_opt prev = false \/ Re.is_word_opt (Re.head s) = false ->
    Re.findall_scan word_pattern prev s 0
    = filter letters_only (runs is_word EmptyString s).
Proof.
  induction n as [|n IH]; intros s prev Hlen Hpos.
  - destruct s; [|simpl in Hlen; lia].
    cbn [Re.findall_scan]. rewrite match_at_word.
    destruct (Re.word_boundary prev ""); reflexivity.
  - destruct s as [|c s'].
    { cbn [Re.findall_scan]. rewrite match_at_word.
      destruct (Re.word_boundary prev ""); reflexivity. }
    simpl in Hlen.
    destruct (is_word c) eqn:Hc.
    + (* a word starts here *)
      destruct Hpos as [Hprev|Hhead]; [|simpl in Hhead; congruence].
      pose proof (take_skip is_word s') as Es.
      set (w := take_while is_word s') in *. set (r := skip_while is_word s') in *.
      assert (Hw : all_chars is_word w = true) by apply all_chars_take_while.
      assert (Hr : match r with String d _ => is_word d = false | EmptyString => True end)
        by apply skip_while_head.
      assert (Hr' : Re.is_word_opt (Re.head r) = false)
        by (destruct r; [reflexivity|exact Hr]).
      assert (Hlr : (String.length r <= n)%nat).
      { pose proof (skip_while_length is_word s'). fold r in H. lia. }
      assert (Eruns : runs is_word EmptyString (String c s')
                      = String c w :: runs is_word EmptyString r).
      { simpl. rewrite Hc. rewrite runs_step. fold w r. reflexivity. }
      rewrite Eruns, filter_cons.
      assert (Erest : Re.findall_scan word_pattern (last_of w (Some c)) r 0
                      = filter letters_only (runs is_word EmptyString r)).
      { apply IH; [exact Hlr|right; exact Hr']. }
      cbn [Re.findall_scan]. rewrite match_at_word.
      unfold Re.word_boundary. cbn [Re.head Re.is_word_opt].
      rewrite Hprev, Hc. cbn [xorb].
      destruct (is_az c) eqn:Ac.
      * destruct (all_chars is_az w) eqn:Aw.
        -- (* the word is a token *)
           assert (Eskip : skip_while is_az s' = r).
           { rewrite <- Es. apply skip_while_all; [exact Aw|].
             destruct r as [|d r0]; [exact I|].
             destruct (is_az d) eqn:Ad; [|reflexivity].
             rewrite (is_az_word d Ad) in Hr. discriminate. }
           rewrite Eskip, Hr'.
           rewrite decide_True by (simpl; rewrite Ac; exact Aw).
           unfold Re.item. cbn [Re.has_group word_pattern Re.seq_of orb fst].
           f_equal.
           ++ unfold Re.consumed. rewrite <- Es.
              replace (String.length (String c (w +:+ r)) - String.length r)%nat
                with (String.length (String c w))
                by (simpl; rewrite append_length; lia).
              rewrite <- app_cons. apply substring_prefix.
           ++ rewrite <- Erest. rewrite <- Es at 1.
              replace (String.length (String c s') - String.length r - 1)%nat
                with (String.length w)
                by (rewrite <- Es; simpl; rewrite append_length; lia).
              apply scan_skip.
        -- (* a letter, but the word holds something else *)
           rewrite <- Es.
           rewrite (skip_while_stops w r Hw Aw).
           rewrite decide_False by (simpl; rewrite Ac, Aw; discriminate).
           rewrite <- Erest. apply scan_inside; [exact Hw|exact Hc].
      * rewrite decide_False by (simpl; rewrite Ac; discriminate).
        rewrite <- Erest. rewrite <- Es. apply scan_inside; [exact Hw|exact Hc].
    + (* a separator *)
      assert (Ac : is_az c = false).
      { destruct (is_az c) eqn:Ac; [|reflexivity].
        rewrite (is_az_word c Ac) in Hc. discriminate. }
      cbn [Re.findall_scan]. rewrite match_at_word. rewrite Ac.
      replace (runs is_word EmptyString (String c s'))
        with (runs is_word EmptyString s') by (simpl; rewrite Hc; reflexivity).
      destruct (Re.word_boundary prev (String c s')).
      * apply IH; [lia|left; simpl; exact Hc].
      * apply IH; [lia|left; simpl; exact Hc].
Qed.

(** The tokens of [\b[a-z]+\b] are the runs of word characters that are
    made of letters only. *)
Lemma findall_word_runs s :
  Re.findall word_pattern s = filter letters_only (runs is_word EmptyString s).
Proof.
  unfold Re.findall. apply (findall_word_runs_aux (String.length s)); [lia|].
  left. reflexivity.
Qed.

Lemma extract_keywords_word_runs text :
  extract_keywords text = keywords_by_word_runs text.
Proof.
  unfold extract_keywords, keywords_by_word_runs.
  rewrite findall_word_runs. reflexivity.
Qed.

End WordPattern.

Section Fences.

Lemma startswith_app s sub t : startswith s sub = true -> startswith (s +:+ t) sub = true.
Proof.
  revert sub. induction s as [|c s IH]; intros [|a sub] H.
  - destruct t; reflexivity.
  - simpl in H. discriminate.
  - reflexivity.
  - rewrite app_cons. simpl in *. apply andb_prop in H as [-> H]. simpl. apply IH, H.
Qed.

Lemma occurs_cons sub c s : occurs sub s = true -> occurs sub (String c s) = true.
Proof. intros H. simpl. rewrite H. apply orb_true_r. Qed.

(** An occurrence in a suffix or in a prefix is an occurrence. *)
Lemma occurs_lstrip sub s : occurs sub (lstrip s) = true -> occurs sub s = true.
Proof.
  induction s as [|c s IH]; simpl; [trivial|].
  destruct (is_space c); [|trivial].
  intros H. rewrite (IH H). apply orb_true_r.
Qed.

Lemma rstrip_prefix s : exists t, s = rstrip s +:+ t.
Proof.
  induction s as [|c s [t IH]]; [exists EmptyString; reflexivity|].
  simpl. destruct (rstrip s) as [|d r] eqn:E.
  - destruct (is_space c).
    + exists (String c s). reflexivity.
    + exists t. rewrite app_cons, app_nil. rewrite app_nil in IH. congruence.
  - exists t. rewrite app_cons. congruence.
Qed.

Lemma occurs_app sub s t : occurs sub s = true -> occurs sub (s +:+ t) = true.
Proof.
  induction s as [|c s IH]; intros H.
  - destruct sub; [destruct t; reflexivity|discriminate].
  - rewrite app_cons. cbn [occurs] in *.
    apply orb_prop in H as [H|H].
    + rewrite <- app_cons, (startswith_app _ _ t H). reflexivity.
    + rewrite (IH H). apply orb_true_r.
Qed.

Lemma occurs_rstrip sub s : occurs sub (rstrip s) = true -> occurs sub s = true.
Proof.
  intros H. destruct (rstrip_prefix s) as [t E]. rewrite E. apply occurs_app, H.
Qed.

Lemma occurs_strip sub s : occurs sub s = false -> occurs sub (strip s) = false.
Proof.
  intros H. destruct (occurs sub (strip s)) eqn:E; [|reflexivity].
  unfold strip in E. apply occurs_rstrip, occurs_lstrip in E. congruence.
Qed.

(** With no fence in it, a text goes through [replace] unchanged. *)
Lemma replace_no_fence s : occurs fence s = false -> replace s fence "" = s.
Proof.
  unfold replace. induction s as [|c s IH]; [reflexivity|].
  intros H. cbn [occurs] in H. apply orb_false_elim in H as [H1 H2].
  cbn [replace_from]. rewrite H1. f_equal. apply IH, H2.
Qed.

(** Where the output of [replace] starts with back-quotes, so does the
    input. *)
Lemma replace_head1 s :
  startswith (replace_from fence "" s 0) "`" = true -> startswith s "`" = true.
Proof.
  destruct s as [|c s]; [discriminate|].
  cbn [replace_from]. destruct (startswith (String c s) fence) eqn:F.
  - intros _. simpl in *. apply andb_prop in F as [-> _]. destruct s; reflexivity.
  - intros H. simpl in *. apply andb_prop in H as [-> _]. destruct s; reflexivity.
Qed.

Lemma startswith_empty s : startswith s "" = true.
Proof. destruct s; reflexivity. Qed.

Lemma replace_head2 s :
  startswith (replace_from fence "" s 0) "``" = true -> startswith s "``" = true.
Proof.
  destruct s as [|c s]; [discriminate|].
  cbn [replace_from]. destruct (startswith (String c s) fence) eqn:F.
  - intros _. simpl in F. apply andb_prop in F as [Hc F].
    destruct s as [|d s]; [discriminate|]. simpl in F. apply andb_prop in F as [Hd _].
    simpl. rewrite Hc, Hd. simpl. apply startswith_empty.
  - intros H. simpl in H. apply andb_prop in H as [Hc H].
    simpl. rewrite Hc. simpl.
    change (startswith (replace_from fence "" s 0) "`" = true) in H.
    apply replace_head1 in H. exact H.
Qed.

(** No fence is left after [replace]. *)
Lemma replace_removes_fences s k : occurs fence (replace_from fence "" s k) = false.
Proof.
  revert k. induction s as [|c s IH]; intros k; [reflexivity|].
  cbn [replace_from]. destruct k as [|k]; [|apply IH].
  destruct (startswith (String c s) fence) eqn:F.
  - rewrite app_nil. apply IH.
  - cbn [occurs]. rewrite IH, orb_false_r.
    destruct (startswith (String c (replace_from fence "" s 0)) fence) eqn:G; [|reflexivity].
    exfalso. simpl in G. apply andb_prop in G as [Hc G].
    change (startswith (replace_from fence "" s 0) "``" = true) in G.
    apply replace_head2 in G.
    simpl in F. rewrite Hc in F. simpl in F.
    change (startswith s "``" = false) in F. congruence.
Qed.

Lemma tailored_has_no_fence completion : occurs fence (tailored_of completion) = false.
Proof. unfold tailored_of. apply occurs_strip, replace_removes_fences. Qed.

Lemma tailored_without_fence completion :
  occurs fence completion = false -> tailored_of completion = strip completion.
Proof. intros H. unfold tailored_of. change "```" with fence. rewrite replace_no_fence; trivial. Qed.

End Fences.

Section Scoring.
Local Open Scope Z_scope.


Lemma len_nonneg (X : gset string) : 0 <= len X.
Proof. unfold len. lia. Qed.

Lemma len_subseteq (X Y : gset string) : X ⊆ Y -> len X <= len Y.
Proof. intros H. unfold len. apply inj_le, subseteq_size, H. Qed.

Lemma len_pos (X : gset string) : X <> ∅ -> 0 < len X.
Proof.
  intros H. unfold len.
  assert (size X <> 0%nat) by (apply size_non_empty_iff; intros E; apply H; set_solver).
  lia.
Qed.

Lemma percent_of_sets (X Y : gset string) :
  Y <> ∅ -> X ⊆ Y ->
  exists v, truncated_percent (len X) (len Y) = Ok v /\ 0 <= v <= 100.
Proof.
  intros HY HX. apply truncated_percent_bounds.
  - split; [apply len_nonneg|apply len_subseteq, HX].
  - apply len_pos, HY.
Qed.

Lemma tone_of_percent (resume_set : gset string) :
  tone_of resume_set
  = truncated_percent (len (resume_set ∩ professional_terms))
                      (Z.max 1 (len professional_terms)).
Proof. reflexivity. Qed.

Lemma tone_of_bounds (resume_set : gset string) :
  exists t, tone_of resume_set = Ok t /\ 0 <= t <= 100.
Proof.
  rewrite tone_of_percent. apply truncated_percent_bounds.
  - split; [apply len_nonneg|].
    pose proof (len_subseteq (resume_set ∩ professional_terms) professional_terms
                  (intersection_subseteq_r _ _)). lia.
  - lia.
Qed.

Lemma experience_of_unfold resume_text :
  experience_of resume_text =
  match Re.findall years_pattern resume_text with
  | [] => Ok 0
  | y0 :: _ =>
      years ← int_of_str y0;
      if 0 <? years then experience_value years else Ok 0
  end.
Proof. reflexivity. Qed.

Lemma experience_of_bounds resume_text e :
  experience_of resume_text = Ok e -> 0 <= e <= 100.
Proof.
  rewrite experience_of_unfold.
  destruct (Re.findall years_pattern resume_text) as [|y0 ys]; [intros [= <-]; lia|].
  destruct (int_of_str y0) as [years|x]; [|discriminate].
  rewrite bind_Ok.
  destruct (Z.ltb_spec 0 years) as [Hy|Hy]; [|intros [= <-]; lia].
  apply experience_value_bounds, Hy.
Qed.

Lemma calculate_empty resume_text jd_text :
  keyword_set jd_text = ∅ ->
  calculate_match_score resume_text jd_text = Ok (0, 0, 0, 0, "Unable to analyze").
Proof.
  intros H. unfold calculate_match_score. fold (keyword_set jd_text).
  rewrite decide_True by exact H. reflexivity.
Qed.

(** Past the guard, the scorer is the sequence of its five blocks. *)
Lemma calculate_nonempty resume_text jd_text :
  keyword_set jd_text <> ∅ ->
  calculate_match_score resume_text jd_text =
  let jd_unique := keyword_set jd_text in
  let resume_set := keyword_set resume_text in
  keywords_match ← truncated_percent (len (jd_unique ∩ resume_set)) (len jd_unique);
  skills_match ←
    (if decide (jd_unique ∩ tech_skills = ∅) then Ok 0
     else truncated_percent
            (len ((jd_unique ∩ tech_skills) ∩ (resume_set ∩ tech_skills)))
            (len (jd_unique ∩ tech_skills)));
  experience_match ← experience_of resume_text;
  tone_match ← tone_of resume_set;
  overall_score ← overall_of skills_match experience_match keywords_match tone_match;
  Ok (overall_score, skills_match, experience_match, keywords_match,
      summary_of keywords_match skills_match).
Proof.
  intros H. unfold calculate_match_score. fold (keyword_set jd_text).
  rewrite decide_False by exact H. reflexivity.
Qed.

Lemma skills_bounds (jd_unique resume_set : gset string) :
  exists s,
    (if decide (jd_unique ∩ tech_skills = ∅) then Ok 0
     else truncated_percent
            (len ((jd_unique ∩ tech_skills) ∩ (resume_set ∩ tech_skills)))
            (len (jd_unique ∩ tech_skills))) = Ok s
    /\ 0 <= s <= 100.
Proof.
  destruct (decide (jd_unique ∩ tech_skills = ∅)) as [E|N].
  - exists 0. split; [reflexivity|lia].
  - apply percent_of_sets; [exact N|apply intersection_subseteq_l].
Qed.

(** When the experience block returns, so does the scorer, and its five
    results are those of the blocks. *)
Lemma score_returns resume_text jd_text e :
  keyword_set jd_text <> ∅ -> experience_of resume_text = Ok e ->
  let jd_unique := keyword_set jd_text in
  let resume_set := keyword_set resume_text in
  exists k s t o,
    truncated_percent (len (jd_unique ∩ resume_set)) (len jd_unique) = Ok k
    /\ (if decide (jd_unique ∩ tech_skills = ∅) then Ok 0
        else truncated_percent
               (len ((jd_unique ∩ tech_skills) ∩ (resume_set ∩ tech_skills)))
               (len (jd_unique ∩ tech_skills))) = Ok s
    /\ tone_of resume_set = Ok t
    /\ overall_of s e k t = Ok o
    /\ calculate_match_score resume_text jd_text = Ok (o, s, e, k, summary_of k s)
    /\ 0 <= k <= 100 /\ 0 <= s <= 100 /\ 0 <= e <= 100 /\ 0 <= t <= 100 /\ 0 <= o <= 100.
Proof.
  intros HJ He jd_unique resume_set.
  destruct (percent_of_sets (jd_unique ∩ resume_set) jd_unique HJ
              (intersection_subseteq_l _ _)) as (k & Hk & Bk).
  destruct (skills_bounds jd_unique resume_set) as (s & Hs & Bs).
  destruct (tone_of_bounds resume_set) as (t & Ht & Bt).
  pose proof (experience_of_bounds _ _ He) as Be.
  destruct (overall_of_bounds s e k t Bs Be Bk Bt) as (o & Ho & Bo).
  exists k, s, t, o. repeat split; try assumption; try lia.
  rewrite calculate_nonempty by exact HJ. cbv zeta.
  fold jd_unique resume_set.
  rewrite Hk, bind_Ok, Hs, bind_Ok, He, bind_Ok, Ht, bind_Ok, Ho, bind_Ok. reflexivity.
Qed.

(** The scorer raises exactly what the experience block raises. *)
Lemma score_raises resume_text jd_text x :
  keyword_set jd_text <> ∅ -> experience_of resume_text = Raise x ->
  calculate_match_score resume_text jd_text = Raise x.
Proof.
  intros HJ He.
  rewrite calculate_nonempty by exact HJ. cbv zeta.
  destruct (percent_of_sets (keyword_set jd_text ∩ keyword_set resume_text)
              (keyword_set jd_text) HJ (intersection_subseteq_l _ _)) as (k & Hk & _).
  destruct (skills_bounds (keyword_set jd_text) (keyword_set resume_text)) as (s & Hs & _).
  rewrite Hk, bind_Ok, Hs, bind_Ok, He. reflexivity.
Qed.

Lemma summary_is_not_unable k s : summary_of k s <> "Unable to analyze".
Proof.
  unfold summary_of.
  change ("Your resume matches " +:+ ?x) with (String "Y" ("our resume matches " +:+ x)).
  discriminate.
Qed.

End Scoring.

Section HandlerFacts.

Variable pdf_page_texts : list byte -> res (list string).
Variable docx_paragraph_texts : list byte -> res (list string).
Variable decode_utf8 : list byte -> res string.
Variable repr_container : json -> string.

Local Abbreviation extract := (extract_text pdf_page_texts docx_paragraph_texts decode_utf8).
Local Abbreviation extract_body :=
  (extract_text_body pdf_page_texts docx_paragraph_texts decode_utf8).
Local Abbreviation chat := (chat_with_bot repr_container).


Lemma extract_text_of_body file_stream filename :
  (extract file_stream filename).1
  = text_or_empty (extract_body file_stream filename).
Proof.
  unfold extract_text.
  destruct (extract_text_body _ _ _ file_stream filename); reflexivity.
Qed.

Lemma extract_text_dispatch bytes p name :
  (extract (Stream bytes p false) (Some name)).1 =
  if endswith name ".pdf" then
    text_or_empty (pages ← pdf_page_texts bytes; Ok (join "" pages))
  else if endswith name ".docx" then
    text_or_empty (paragraphs ← docx_paragraph_texts bytes; Ok (join nl paragraphs))
  else if endswith name ".txt" then
    text_or_empty (decode_utf8 bytes)
  else "".
Proof.
  rewrite extract_text_of_body. unfold extract_text_body.
  cbn [seek0 closed content mbind res_bind filename_endswith].
  destruct (endswith name ".pdf"); [reflexivity|].
  destruct (endswith name ".docx"); [reflexivity|].
  destruct (endswith name ".txt"); reflexivity.
Qed.

Lemma extract_text_failure file_stream filename e :
  extract_body file_stream filename = Raise e ->
  extract file_stream filename
  = ("", ["Error extracting text from " +:+ str_of_filename filename +:+ ": " +:+ exn_str e]).
Proof. intros H. unfold extract_text. rewrite H. reflexivity. Qed.

(** ** The chat prompt *)

Lemma subscript_role t : subscript (turn_json t) "role" = Ok (JStr (role t)).
Proof. unfold subscript, turn_json. rewrite lookup_insert_eq. reflexivity. Qed.

Lemma subscript_content t : subscript (turn_json t) "content" = Ok (JStr (turn_text t)).
Proof.
  unfold subscript, turn_json.
  rewrite lookup_insert_ne by discriminate. rewrite lookup_insert_eq. reflexivity.
Qed.

Lemma add_turns_render history acc :
  add_turns repr_container acc (turn_json <$> history)
  = Ok (acc +:+ concat_lines (render_turn <$> history)).
Proof.
  revert acc. induction history as [|t h IH]; intros acc.
  - cbn. rewrite append_empty_r. reflexivity.
  - cbn [fmap list_fmap add_turns].
    change (list_fmap turn json turn_json h) with (turn_json <$> h).
    rewrite subscript_role. cbn [mbind res_bind title_of].
    rewrite subscript_content. cbn [mbind res_bind format_json].
    rewrite IH. f_equal.
    change (list_fmap turn string render_turn h) with (render_turn <$> h).
    cbn [concat_lines]. unfold render_turn at 2.
    rewrite !append_assoc'. reflexivity.
Qed.

Lemma title_from_lower rest :
  all_chars is_az rest = true -> title_from true rest = rest.
Proof.
  induction rest as [|d rest IH]; intros H; [reflexivity|].
  simpl in H. apply andb_prop in H as [Hd H].
  cbn [title_from].
  assert (Hu : is_upper d = false).
  { revert Hd. unfold is_az, is_upper, between.
    destruct (N.leb_spec 97 (code d)), (N.leb_spec (code d) 122); try discriminate.
    intros _.
    destruct (N.leb_spec 65 (code d)), (N.leb_spec (code d) 90),
      (N.leb_spec 192 (code d)), (N.leb_spec (code d) 214),
      (N.leb_spec 216 (code d)), (N.leb_spec (code d) 222); simpl; try reflexivity; lia. }
  assert (Hc : is_cased d = true).
  { unfold is_cased. fold (is_az d). rewrite Hd. rewrite orb_true_r. reflexivity. }
  unfold lower_char. rewrite Hu, Hc, IH by exact H. reflexivity.
Qed.

Lemma title_capitalize c rest :
  is_az c = true -> all_chars is_az rest = true ->
  title (String c rest) = capitalize (String c rest).
Proof.
  intros Hc Hr. unfold title. cbn [title_from capitalize].
  unfold title_char. fold (is_az c). rewrite Hc. simpl orb. cbv iota.
  assert (Hk : is_cased c = true).
  { unfold is_cased. fold (is_az c). rewrite Hc. rewrite orb_true_r. reflexivity. }
  rewrite Hk, title_from_lower by exact Hr. reflexivity.
Qed.

(** ** Validation of a chat request *)

Lemma chat_default_history generate data :
  data !! "history" = None ->
  chat (Some generate) data
  = chat (Some generate) (<["history" := JArr []]> data).
Proof.
  intros H. unfold chat_with_bot, dict_get, dict_get_default.
  rewrite !lookup_insert_ne by discriminate.
  rewrite lookup_insert_eq, H. reflexivity.
Qed.

Lemma chat_missing_data generate data :
  chat (Some generate) data = error_response "Missing data" 400
  <-> missing_or_empty (data !! "resume_text") \/ missing_or_empty (data !! "message").
Proof.
  unfold chat_with_bot, missing_or_empty, dict_get.
  destruct (truthy (default JNull (data !! "resume_text"))) eqn:T1;
    destruct (truthy (default JNull (data !! "message"))) eqn:T2; cbn [negb orb];
    try (split; [intros _; auto|reflexivity]).
  split; [|intros [?|?]; discriminate].
  destruct (chat_prompt _ _ _ _) as [prompt|e]; [|discriminate].
  destruct (generate prompt) as [reply|e]; cbn; unfold error_response; intros [= ? ?].
Qed.

End HandlerFacts.

(* ===================================================================== *)
(** * The float model against the standard library's [SpecFloat] *)
(* ===================================================================== *)

Section AgainstSpecFloat.
Local Open Scope Z_scope.

(** On every quotient [m / n] with [m <= n <= 40], the division and the
    product by 100 are those of [SFdiv] and [SFmul] at binary64. *)
Example percent_agrees_with_SpecFloat :
  forallb (fun '(m, n) => agrees_on_percent m n) (pairs_upto 40) = true.
Proof. vm_compute. reflexivity. Qed.

(** The four weights are the binary64 values nearest to their decimals. *)
Example weights_agree_with_SpecFloat :
  to_spec (literal 4 10) = SFdiv 53 1024 (spec_of_int 4) (spec_of_int 10)
  /\ to_spec (literal 3 10) = SFdiv 53 1024 (spec_of_int 3) (spec_of_int 10)
  /\ to_spec (literal 2 10) = SFdiv 53 1024 (spec_of_int 2) (spec_of_int 10)
  /\ to_spec (literal 1 10) = SFdiv 53 1024 (spec_of_int 1) (spec_of_int 10).
Proof. vm_compute. repeat split. Qed.

End AgainstSpecFloat.

(* ===================================================================== *)
(** * The properties of the specification *)
(* ===================================================================== *)

Section Claims.
Local Open Scope Z_scope.

Lemma sample_job_has_keywords : keyword_set sample_job <> ∅.
Proof.
  assert (H : bool_decide (keyword_set sample_job = ∅) = false)
    by (vm_compute; reflexivity).
  exact (proj1 (bool_decide_eq_false _) H).
Qed.

Lemma sample_score :
  calculate_match_score sample_resume sample_job
  = Ok (41, 60, 30, 33,
        "Your resume matches 33% of job keywords with 60% skill alignment.").
Proof. vm_compute. reflexivity. Qed.

Lemma score_inversion resume_text jd_text overall skills experience keywords summary :
  keyword_set jd_text <> ∅ ->
  calculate_match_score resume_text jd_text
  = Ok (overall, skills, experience, keywords, summary) ->
  experience_of resume_text = Ok experience
  /\ truncated_percent (len (keyword_set jd_text ∩ keyword_set resume_text))
                       (len (keyword_set jd_text)) = Ok keywords
  /\ (if decide (keyword_set jd_text ∩ tech_skills = ∅) then Ok 0
      else truncated_percent
             (len ((keyword_set jd_text ∩ tech_skills)
                   ∩ (keyword_set resume_text ∩ tech_skills)))
             (len (keyword_set jd_text ∩ tech_skills))) = Ok skills
  /\ (exists tone, tone_of (keyword_set resume_text) = Ok tone
                   /\ 0 <= tone <= 100
                   /\ overall_of skills experience keywords tone = Ok overall)
  /\ summary = summary_of keywords skills
  /\ 0 <= overall <= 100 /\ 0 <= skills <= 100
  /\ 0 <= experience <= 100 /\ 0 <= keywords <= 100.
Proof.
  intros HJ H.
  destruct (experience_of resume_text) as [e|x] eqn:He.
  - destruct (score_returns resume_text jd_text e HJ He)
      as (k & s & t & o & Hk & Hs & Ht & Ho & Hc & Bk & Bs & Be & Bt & Bo).
    rewrite Hc in H. injection H as <- <- <- <- <-.
    repeat split; try assumption; try lia.
    exists t. repeat split; try assumption; lia.
  - rewrite (score_raises resume_text jd_text x HJ He) in H. discriminate.
Qed.

(** ** C1 *)

(** Claim C1.  When the job description has keywords, the overall score that
    [calculate_match_score] returns is the truncation of
    [skills * 0.4 + experience * 0.3 + keywords * 0.2 + tone * 0.1], where
    skills, experience and keywords are the three other scores it returns
    and tone is the tone match of the resume; the products and the sums are
    those of binary64, taken from left to right.  On 80, 50, 60 and 20 the
    formula gives 61. *)
Theorem overall_score_formula
    resume_text jd_text overall skills experience keywords summary :
  keyword_set jd_text <> ∅ ->
  calculate_match_score resume_text jd_text
  = Ok (overall, skills, experience, keywords, summary) ->
  (exists tone a b c d,
      tone_of (keyword_set resume_text) = Ok tone
      /\ int_mul_float skills (literal 4 10) = Ok a
      /\ int_mul_float experience (literal 3 10) = Ok b
      /\ int_mul_float keywords (literal 2 10) = Ok c
      /\ int_mul_float tone (literal 1 10) = Ok d
      /\ int_of_float (fadd (fadd (fadd a b) c) d) = Ok overall)
  /\ overall_of 80 50 60 20 = Ok 61.
Proof.
  intros HJ H. split; [|vm_compute; reflexivity].
  destruct (score_inversion _ _ _ _ _ _ _ HJ H)
    as (_ & _ & _ & (tone & Ht & _ & Ho) & _).
  exists tone. unfold overall_of in Ho.
  destruct (int_mul_float skills (literal 4 10)) as [a|x]; [|discriminate].
  rewrite bind_Ok in Ho.
  destruct (int_mul_float experience (literal 3 10)) as [b|x]; [|discriminate].
  rewrite bind_Ok in Ho.
  destruct (int_mul_float keywords (literal 2 10)) as [c|x]; [|discriminate].
  rewrite bind_Ok in Ho.
  destruct (int_mul_float tone (literal 1 10)) as [d|x]; [|discriminate].
  rewrite bind_Ok in Ho.
  exists a, b, c, d. repeat split; assumption.
Qed.

Lemma overall_score_formula_witness :
  keyword_set sample_job <> ∅
  /\ calculate_match_score sample_resume sample_job
     = Ok (41, 60, 30, 33,
           "Your resume matches 33% of job keywords with 60% skill alignment.")
  /\ exists tone a b c d,
      tone_of (keyword_set sample_resume) = Ok tone
      /\ int_mul_float 60 (literal 4 10) = Ok a
      /\ int_mul_float 30 (literal 3 10) = Ok b
      /\ int_mul_float 33 (literal 2 10) = Ok c
      /\ int_mul_float tone (literal 1 10) = Ok d
      /\ int_of_float (fadd (fadd (fadd a b) c) d) = Ok 41.
Proof.
  split; [exact sample_job_has_keywords|]. split; [exact sample_score|].
  exact (proj1 (overall_score_formula _ _ _ _ _ _ _ sample_job_has_keywords sample_score)).
Defined.

(** ** C2 *)

(** The claim fails where a letter touches a digit: the specification's
    reading keeps "python" out of "python3", the pattern drops the word. *)
Lemma digits_are_not_separators :
  extract_keywords "python3 developer" = ["developer"]
  /\ keywords_by_letter_runs "python3 developer" = ["python"; "developer"].
Proof. vm_compute. split; reflexivity. Qed.

(** Claim C2, amended.  [extract_keywords] lower-cases the text, splits it
    into the maximal runs of word characters (letters, digits, underscore),
    keeps the runs made of the letters a-z only - a run that holds a digit
    or an underscore is dropped whole, not split - and, of these, the ones
    of length at least 3 that are no stop words, in order and with
    repetitions.  "Python PYTHON python" gives "python" three times. *)
Theorem extract_keywords_by_word_runs :
  (forall text, extract_keywords text = keywords_by_word_runs text)
  /\ extract_keywords "Python PYTHON python" = ["python"; "python"; "python"].
Proof.
  split; [exact extract_keywords_word_runs|vm_compute; reflexivity].
Qed.

(** ** C3 *)

(** Claim C3.  Whatever the resume, [calculate_match_score] returns
    [(0, 0, 0, 0, "Unable to analyze")] when the job description has no
    keyword, and in no other case. *)
Theorem unable_to_analyze_iff resume_text jd_text :
  calculate_match_score resume_text jd_text = Ok (0, 0, 0, 0, "Unable to analyze")
  <-> keyword_set jd_text = ∅.
Proof.
  split.
  - intros H. destruct (decide (keyword_set jd_text = ∅)) as [E|N]; [exact E|].
    exfalso.
    destruct (score_inversion _ _ _ _ _ _ _ N H) as (_ & _ & _ & _ & Hs & _).
    exact (summary_is_not_unable 0 0 (eq_sym Hs)).
  - apply calculate_empty.
Qed.

(** ** C4 *)

(** The examples of the claim. *)
Example experience_examples :
  experience_of "I have 10 years of experience" = Ok 100
  /\ experience_of "I have 20 years" = Ok 100
  /\ experience_of "I have 0 years" = Ok 0
  /\ experience_of "Seasoned Python developer" = Ok 0
  /\ experience_of "over 7 YRS in data" = Ok 70.
Proof. vm_compute. repeat split. Qed.



Lemma experience_of_no_match resume_text :
  Re.findall years_pattern resume_text = [] -> experience_of resume_text = Ok 0.
Proof. intros Hf. rewrite experience_of_unfold, Hf. reflexivity. Qed.

(** Claim C4, at the input where the code departs from it: a resume that
    states [10^308] years.  The formula of the claim, [min(Y/10*100, 100)]
    truncated, is 100 there ([Y/10*100] is the infinity of binary64); the
    code truncates first, and [int] of an infinity raises. *)
Lemma experience_overflow :
  Re.findall years_pattern resume_1e308_years = [digits_1e308]
  /\ int_of_str digits_1e308 = Ok (10 ^ 308)
  /\ (p ← (q ← truediv (10 ^ 308) 10; fmul_int q 100); Ok (truncated_min_100 p)) = Ok 100
  /\ experience_of resume_1e308_years
     = Raise (Exn OverflowError "cannot convert float infinity to integer")
  /\ calculate_match_score resume_1e308_years sample_job
     = Raise (Exn OverflowError "cannot convert float infinity to integer").
Proof. vm_compute. repeat split. Qed.

(** ** C5 *)

Lemma in_pairs_upto (N : nat) (m n : Z) :
  0 <= m <= n -> 1 <= n <= Z.of_nat N -> In (m, n) (pairs_upto N).
Proof.
  intros Hm Hn. unfold pairs_upto. apply in_flat_map.
  exists (Z.to_nat n). split.
  - apply in_seq. lia.
  - apply in_map_iff. exists (Z.to_nat m). split.
    + f_equal; lia.
    + apply in_seq. lia.
Qed.

Lemma percent_exact_upto_33 :
  forallb (fun '(m, n) => percent_is_exact m n) (pairs_upto 33) = true.
Proof. vm_compute. reflexivity. Qed.

(** Up to 33 - the size of the skill catalogue - the float computation of a
    percentage is exact. *)
Lemma truncated_percent_small m n :
  0 <= m <= n -> 1 <= n <= 33 -> truncated_percent m n = Ok (100 * m / n).
Proof.
  intros Hm Hn.
  pose proof (proj1 (forallb_forall _ _) percent_exact_upto_33 (m, n)
                (in_pairs_upto 33 m n Hm ltac:(lia))) as H.
  cbv beta iota in H. unfold percent_is_exact in H.
  destruct (truncated_percent m n) as [v|x]; [|discriminate].
  apply Z.eqb_eq in H. congruence.
Qed.

Lemma len_tech_skills : len tech_skills = 33.
Proof. vm_compute. reflexivity. Qed.

(** Claim C5.  When the job description has keywords, the keywords match
    returned is [|resumeSet ∩ jdSet| / |jdSet| * 100] truncated, and the
    skills match is [|jdSkills ∩ resumeSkills| / |jdSkills| * 100] truncated
    when [jdSkills] - the keywords of the job description that are in the
    skill catalogue - is not empty, and 0 when it is.  Quotient and product
    are those of binary64 and truncation is [int]; for the skills match,
    whose denominator is at most 33, the result is the integer quotient of
    [100 * |jdSkills ∩ resumeSkills|] by [|jdSkills|]. *)
Theorem match_percentages
    resume_text jd_text overall skills experience keywords summary :
  keyword_set jd_text <> ∅ ->
  calculate_match_score resume_text jd_text
  = Ok (overall, skills, experience, keywords, summary) ->
  let resume_set := keyword_set resume_text in
  let jd_set := keyword_set jd_text in
  let jd_skills := jd_set ∩ tech_skills in
  let resume_skills := resume_set ∩ tech_skills in
  truncated_percent (len (resume_set ∩ jd_set)) (len jd_set) = Ok keywords
  /\ (jd_skills <> ∅ ->
      truncated_percent (len (jd_skills ∩ resume_skills)) (len jd_skills) = Ok skills
      /\ skills = 100 * len (jd_skills ∩ resume_skills) / len jd_skills)
  /\ (jd_skills = ∅ -> skills = 0).
Proof.
  intros HJ H resume_set jd_set jd_skills resume_skills.
  destruct (score_inversion _ _ _ _ _ _ _ HJ H) as (_ & Hk & Hs & _).
  fold jd_set resume_set jd_skills resume_skills in Hk, Hs.
  split; [|split].
  - rewrite (comm_L (∩) resume_set jd_set). exact Hk.
  - intros N. rewrite decide_False in Hs by exact N. split; [exact Hs|].
    rewrite truncated_percent_small in Hs.
    + congruence.
    + split; [apply len_nonneg|].
      apply len_subseteq, intersection_subseteq_l.
    + pose proof (len_pos _ N).
      pose proof (len_subseteq jd_skills tech_skills (intersection_subseteq_r _ _)).
      rewrite len_tech_skills in *. lia.
  - intros E. rewrite decide_True in Hs by exact E. congruence.
Qed.

Lemma match_percentages_witness :
  keyword_set sample_job <> ∅
  /\ calculate_match_score sample_resume sample_job
     = Ok (41, 60, 30, 33,
           "Your resume matches 33% of job keywords with 60% skill alignment.")
  /\ truncated_percent (len (keyword_set sample_resume ∩ keyword_set sample_job))
                       (len (keyword_set sample_job)) = Ok 33.
Proof.
  split; [exact sample_job_has_keywords|]. split; [exact sample_score|].
  exact (proj1 (match_percentages _ _ _ _ _ _ _ sample_job_has_keywords sample_score)).
Defined.

(** The quotient is rounded before the product is: 29 keywords of 50 give
    57, where [100 * 29 / 50] is 58. *)
Example truncated_percent_29_50 :
  truncated_percent 29 50 = Ok 57 /\ 100 * 29 / 50 = 58.
Proof. vm_compute. split; reflexivity. Qed.

(** ** C6 *)

(** Claim C6.  The four percentages that [calculate_match_score] returns -
    overall, skills, experience, keywords - lie between 0 and 100, and so
    does the tone match of the resume, which is always defined.  The scorer
    returns whenever its experience block does. *)
Theorem percentages_in_range resume_text jd_text :
  (forall overall skills experience keywords summary,
      calculate_match_score resume_text jd_text
      = Ok (overall, skills, experience, keywords, summary) ->
      0 <= overall <= 100 /\ 0 <= skills <= 100
      /\ 0 <= experience <= 100 /\ 0 <= keywords <= 100)
  /\ (exists tone, tone_of (keyword_set resume_text) = Ok tone /\ 0 <= tone <= 100)
  /\ (forall e, experience_of resume_text = Ok e ->
                exists result, calculate_match_score resume_text jd_text = Ok result).
Proof.
  split; [|split].
  - intros overall skills experience keywords summary H.
    destruct (decide (keyword_set jd_text = ∅)) as [E|N].
    + rewrite (calculate_empty _ _ E) in H. injection H as <- <- <- <- <-. lia.
    + destruct (score_inversion _ _ _ _ _ _ _ N H)
        as (_ & _ & _ & _ & _ & Bo & Bs & Be & Bk).
      lia.
  - apply tone_of_bounds.
  - intros e He.
    destruct (decide (keyword_set jd_text = ∅)) as [E|N].
    + rewrite (calculate_empty _ _ E). eexists. reflexivity.
    + destruct (score_returns resume_text jd_text e N He)
        as (k & s & t & o & _ & _ & _ & _ & Hc & _).
      rewrite Hc. eexists. reflexivity.
Qed.

(** Property X3.  [calculate_match_score] raises only when its experience
    block raises, and then with the same exception. *)
Lemma score_failure resume_text jd_text x :
  calculate_match_score resume_text jd_text = Raise x ->
  experience_of resume_text = Raise x.
Proof.
  intros H.
  destruct (decide (keyword_set jd_text = ∅)) as [E|N].
  - rewrite (calculate_empty _ _ E) in H. discriminate.
  - destruct (experience_of resume_text) as [e|y] eqn:He.
    + destruct (score_returns resume_text jd_text e N He)
        as (k & s & t & o & _ & _ & _ & _ & Hc & _).
      rewrite Hc in H. discriminate.
    + rewrite (score_raises _ _ y N He) in H. congruence.
Qed.

Lemma score_failure_witness :
  calculate_match_score resume_1e308_years sample_job
  = Raise (Exn OverflowError "cannot convert float infinity to integer")
  /\ experience_of resume_1e308_years
     = Raise (Exn OverflowError "cannot convert float infinity to integer").
Proof.
  assert (H : calculate_match_score resume_1e308_years sample_job
              = Raise (Exn OverflowError "cannot convert float infinity to integer"))
    by (vm_compute; reflexivity).
  split; [exact H|]. exact (score_failure _ _ _ H).
Defined.

(** The scores of the short pair: the sum of the four products is just
    below 23. *)
Example short_pair_score :
  calculate_match_score short_resume short_job
  = Ok (22, 16, 40, 16,
        "Your resume matches 16% of job keywords with 16% skill alignment.")
  /\ tone_of (keyword_set short_resume) = Ok 14
  /\ (4 * 16 + 3 * 40 + 2 * 16 + 1 * 14) / 10 = 23.
Proof. vm_compute. repeat split. Qed.

End Claims.

Section HandlerClaims.

Variable pdf_page_texts : list byte -> res (list string).
Variable docx_paragraph_texts : list byte -> res (list string).
Variable decode_utf8 : list byte -> res string.
Variable repr_container : json -> string.

(** ** C7 *)

(** Claim C7.  [extract_text] returns a text on every stream and filename:
    on an open stream, a name ending in [.pdf], [.docx] or [.txt] gives the
    text of the corresponding extraction (the page texts concatenated, the
    paragraphs joined by newlines, the bytes decoded), any other name gives
    the empty text; and whenever the body of its [try] raises - a corrupt
    document, a decoding failure, a closed stream, a missing name - it
    returns the empty text, with one line logged. *)
Theorem extract_text_never_raises :
  (forall bytes p name,
      (extract_text pdf_page_texts docx_paragraph_texts decode_utf8
         (Stream bytes p false) (Some name)).1 =
      if endswith name ".pdf" then
        text_or_empty (pages ← pdf_page_texts bytes; Ok (join "" pages))
      else if endswith name ".docx" then
        text_or_empty (paragraphs ← docx_paragraph_texts bytes; Ok (join nl paragraphs))
      else if endswith name ".txt" then
        text_or_empty (decode_utf8 bytes)
      else "")
  /\ (forall file_stream filename e,
         extract_text_body pdf_page_texts docx_paragraph_texts decode_utf8
           file_stream filename = Raise e ->
         extract_text pdf_page_texts docx_paragraph_texts decode_utf8 file_stream filename
         = ("", ["Error extracting text from " +:+ str_of_filename filename
                 +:+ ": " +:+ exn_str e]))
  /\ (forall file_stream filename text,
         extract_text_body pdf_page_texts docx_paragraph_texts decode_utf8
           file_stream filename = Ok text ->
         extract_text pdf_page_texts docx_paragraph_texts decode_utf8 file_stream filename
         = (text, [])).
Proof.
  split; [|split].
  - apply extract_text_dispatch.
  - apply extract_text_failure.
  - intros f n t H. unfold extract_text. rewrite H. reflexivity.
Qed.

(** ** C8 *)

(** The claim fails on a fence inside the completion: the specification's
    reading leaves it in place, the code deletes it. *)
Lemma inner_fence_is_removed :
  tailored_of "Summary ```python``` expert" = "Summary python expert"
  /\ strip_outer_fences "Summary ```python``` expert" = "Summary ```python``` expert".
Proof. vm_compute. split; reflexivity. Qed.

(** Claim C8, amended.  The tailored text is the completion with every
    fence (three back-quotes) deleted, wherever it stands, and then trimmed
    of leading and trailing white space: no fence is left in it, and a
    completion that holds no fence is returned as it is, trimmed. *)
Theorem tailored_text_has_no_fence completion :
  tailored_of completion = strip (replace completion fence "")
  /\ occurs fence (tailored_of completion) = false
  /\ (occurs fence completion = false -> tailored_of completion = strip completion).
Proof.
  split; [reflexivity|]. split.
  - apply tailored_has_no_fence.
  - apply tailored_without_fence.
Qed.

(** ** C9 *)

(** Claim C9.  The chat prompt is the persona instruction with the resume,
    then the line [Conversation:], then one line [<Role>: <content>] per
    prior turn, in the order of the transcript, then the new message after
    [User: ] and the cue [Assistant:].  The role is put in title case: a
    role written in lower-case letters, such as [user] or [assistant], gets
    its first letter in upper case and is otherwise unchanged. *)
Theorem chat_prompt_transcript resume_text history user_message :
  chat_prompt repr_container (JStr resume_text) (history_json history) (JStr user_message)
  = Ok (system_prompt repr_container (JStr resume_text)
        +:+ nl +:+ nl +:+ "Conversation:" +:+ nl
        +:+ concat_lines (render_turn <$> history)
        +:+ nl +:+ "User: " +:+ user_message +:+ nl +:+ "Assistant:")
  /\ (forall c rest,
         is_az c = true -> all_chars is_az rest = true ->
         title (String c rest) = capitalize (String c rest)).
Proof.
  split; [|exact title_capitalize].
  unfold chat_prompt, history_json. cbn [iterate]. rewrite bind_Ok.
  rewrite add_turns_render, bind_Ok. unfold mret, res_ret. f_equal.
  cbn [format_json]. rewrite !append_assoc'. reflexivity.
Qed.

(** The prompt of a two-turn conversation. *)
Example chat_prompt_example :
  chat_prompt repr_container (JStr "CV")
    (history_json [Turn "user" "Hi"; Turn "assistant" "Hello"]) (JStr "Tips?")
  = Ok (system_prompt repr_container (JStr "CV") +:+ nl +:+ nl +:+ "Conversation:" +:+ nl
        +:+ "User: Hi" +:+ nl +:+ "Assistant: Hello" +:+ nl
        +:+ nl +:+ "User: Tips?" +:+ nl +:+ "Assistant:").
Proof. vm_compute. reflexivity. Qed.

(** ** C10 *)

(** Claim C10.  With a backend configured, a chat request without the
    [history] field is handled as one whose history is the empty list, and
    the [Missing data] response (status 400) is returned exactly when the
    resume text or the message is missing or empty - for a text field:
    absent, or the empty string. *)
Theorem chat_request_validation generate data :
  (data !! "history" = None ->
   chat_with_bot repr_container (Some generate) data
   = chat_with_bot repr_container (Some generate) (<["history" := JArr []]> data))
  /\ (chat_with_bot repr_container (Some generate) data = error_response "Missing data" 400
      <-> missing_or_empty (data !! "resume_text") \/ missing_or_empty (data !! "message"))
  /\ missing_or_empty None
  /\ (forall s, missing_or_empty (Some (JStr s)) <-> s = "").
Proof.
  split; [apply chat_default_history|]. split; [apply chat_missing_data|].
  split; [reflexivity|].
  intros s. unfold missing_or_empty. destruct s; simpl; split; congruence.
Qed.

(** A request with a resume and a message and no history reaches the
    backend, with an empty transcript. *)
Example chat_without_history :
  chat_with_bot repr_container (Some (fun prompt => Ok "Looks good."))
    (<["resume_text" := JStr "CV"]> (<["message" := JStr "Tips?"]> ∅))
  = Response {[ "reply" := JStr "Looks good." ]} 200.
Proof. vm_compute. reflexivity. Qed.

End HandlerClaims.

(* ===================================================================== *)
(** * Further properties: percentages and the overall score *)
(* ===================================================================== *)

Section Percentages.
Import Lattice.
Local Open Scope Z_scope.

Lemma truncated_percent_lattice m n :
  0 <= m <= n -> 0 < n -> truncated_percent m n = Ok (percent_lat m n / scale).
Proof.
  intros Hm Hn.
  destruct (truediv_le_one m n Hm Hn) as (mq & eq & Hq & Wq & Lq).
  assert (Eq : lat (Fin mq eq) = Lattice.round (m * scale) n).
  { destruct (round_int_lattice m n ltac:(lia) Hn) as [E _]. rewrite <- E.
    unfold truediv in Hq. destruct (Z.eqb_spec n 0); [lia|].
    destruct (Py.round m n 0); congruence. }
  destruct (fmul_hundred_le mq eq Wq Lq) as (mp & ep & Hp & Wp & Lp).
  assert (Ep : lat (Fin mp ep) = percent_lat m n).
  { unfold percent_lat. rewrite <- Eq, <- lat_hundred.
    destruct (fmul_lattice mq eq _ _ Wq wf_hundred) as [E _]. fold hundred in E.
    rewrite <- E. unfold fmul_int in Hp. rewrite float_of_int_100, bind_Ok in Hp.
    unfold mret, res_ret in Hp. congruence. }
  unfold truncated_percent. rewrite Hq, bind_Ok, Hp, bind_Ok. simpl int_of_float.
  destruct Wp as (H1 & H2 & _). rewrite shiftl_lat by assumption. rewrite Ep. reflexivity.
Qed.

Lemma lat_fin m e : lat (Fin m e) = m * 2 ^ (e + 1074).
Proof. reflexivity. Qed.

Lemma fin_le_top m e : 0 <= m < 2 ^ 53 -> -1074 <= e <= 0 -> lat (Fin m e) <= top.
Proof.
  intros Hm He. rewrite lat_fin. unfold top.
  apply Z.le_trans with (2 ^ 53 * 2 ^ (e + 1074)).
  - apply Z.mul_le_mono_nonneg_r; [apply Z.pow_nonneg|]; lia.
  - rewrite <- Z.pow_add_r by lia. apply Z.pow_le_mono_r; lia.
Qed.

(** A representable quotient below [m / n], whose hundredfold is at least
    [k], bounds the percentage from below. *)
Lemma percent_lat_lower m n c k :
  0 <= m -> 0 < n -> 0 <= c < 2 ^ 53 -> c * n <= m * 2 ^ 52 ->
  0 <= k < 2 ^ 53 -> k * 2 ^ 52 <= 100 * c ->
  k * scale <= percent_lat m n.
Proof.
  intros Hm Hn Hc Hcn Hk Hkc. unfold percent_lat.
  pose proof scale_pos as Hs.
  assert (S52 : scale = 2 ^ 52 * 2 ^ 1022) by (unfold scale; rewrite <- Z.pow_add_r; [reflexivity|lia|lia]).
  assert (P1022 : 0 < 2 ^ 1022) by (apply pow2_pos; lia).
  assert (Q : lat (Fin c (-52)) <= Lattice.round (m * scale) n).
  { rewrite <- (round_exact_fin c (-52) n) by
      (try lia; apply fin_le_top; lia).
    apply round_mono_num; [lia| |].
    - rewrite lat_fin. apply Z.mul_nonneg_nonneg; [|lia].
      apply Z.mul_nonneg_nonneg; [lia|apply Z.pow_nonneg; lia].
    - rewrite lat_fin. replace (-52 + 1074) with 1022 by lia. rewrite S52. nia. }
  rewrite lat_fin in Q. replace (-52 + 1074) with 1022 in Q by lia.
  replace (k * scale) with (lat (Fin k 0)) by (rewrite lat_fin; reflexivity).
  rewrite <- (round_exact_fin k 0 scale) by (try lia; apply fin_le_top; lia).
  rewrite lat_fin. change (2 ^ (0 + 1074)) with scale.
  apply round_mono_num; [lia| |].
  - apply Z.mul_nonneg_nonneg; nia.
  - apply Z.le_trans with (c * 2 ^ 1022 * (100 * scale)).
    + rewrite S52 at 1. nia.
    + apply Z.mul_le_mono_nonneg_r; lia.
Qed.

(** A representable quotient above [m / n], whose hundredfold is at most
    the representable [u * 2^-46], bounds the percentage from above. *)
Lemma percent_lat_upper m n c u :
  0 <= m -> 0 < n -> 0 <= c < 2 ^ 53 -> m * 2 ^ 52 <= c * n ->
  0 <= u < 2 ^ 53 -> 100 * c <= 64 * u ->
  percent_lat m n <= u * 2 ^ 1028.
Proof.
  intros Hm Hn Hc Hcn Hu Hcu. unfold percent_lat.
  pose proof scale_pos as Hs.
  assert (S52 : scale = 2 ^ 52 * 2 ^ 1022) by (unfold scale; rewrite <- Z.pow_add_r; [reflexivity|lia|lia]).
  assert (S46 : scale = 2 ^ 46 * 2 ^ 1028) by (unfold scale; rewrite <- Z.pow_add_r; [reflexivity|lia|lia]).
  assert (S6 : 2 ^ 1028 = 64 * 2 ^ 1022) by (change 64 with (2 ^ 6); rewrite <- Z.pow_add_r; [reflexivity|lia|lia]).
  assert (P1022 : 0 < 2 ^ 1022) by (apply pow2_pos; lia).
  assert (Q : Lattice.round (m * scale) n <= lat (Fin c (-52))).
  { rewrite <- (round_exact_fin c (-52) n) by
      (try lia; apply fin_le_top; lia).
    apply round_mono_num; [lia| |].
    - apply Z.mul_nonneg_nonneg; lia.
    - rewrite lat_fin. replace (-52 + 1074) with 1022 by lia. rewrite S52. nia. }
  rewrite lat_fin in Q. replace (-52 + 1074) with 1022 in Q by lia.
  assert (Q0 : 0 <= Lattice.round (m * scale) n)
    by (apply round_nonneg; [lia|apply Z.mul_nonneg_nonneg; lia]).
  replace (u * 2 ^ 1028) with (lat (Fin u (-46)))
    by (rewrite lat_fin; f_equal).
  rewrite <- (round_exact_fin u (-46) scale) by (try lia; apply fin_le_top; lia).
  rewrite lat_fin. replace (-46 + 1074) with 1028 by lia.
  apply round_mono_num; [lia| |].
  - apply Z.mul_nonneg_nonneg; lia.
  - apply Z.le_trans with (c * 2 ^ 1022 * (100 * scale)).
    + apply Z.mul_le_mono_nonneg_r; lia.
    + rewrite S6. nia.
Qed.

Lemma div_scale_lower k x : k * scale <= x -> k <= x / scale.
Proof. intros H. apply Z.div_le_lower_bound; [apply scale_pos|lia]. Qed.

Lemma div_scale_upper u x : 0 <= u -> x <= u * 2 ^ 1028 -> x / scale <= u / 2 ^ 46.
Proof.
  intros Hu H.
  assert (S46 : scale = 2 ^ 46 * 2 ^ 1028) by (unfold scale; rewrite <- Z.pow_add_r; [reflexivity|lia|lia]).
  assert (P1028 : 0 < 2 ^ 1028) by (apply pow2_pos; lia).
  apply Z.le_trans with (u * 2 ^ 1028 / scale).
  - apply Z.div_le_mono; [apply scale_pos|assumption].
  - rewrite S46. rewrite Z.div_mul_cancel_r by lia. lia.
Qed.

(** The percentage is the integer quotient of [100 * m] by [n], or one
    less. *)
Lemma truncated_percent_within_one m n :
  0 <= m <= n -> 1 <= n <= 2 ^ 44 ->
  exists v, truncated_percent m n = Ok v /\ 100 * m / n - 1 <= v <= 100 * m / n.
Proof.
  intros Hm Hn. rewrite truncated_percent_lattice by lia.
  eexists; split; [reflexivity|].
  set (k := 100 * m / n).
  assert (Hk : k * n <= 100 * m < (k + 1) * n).
  { unfold k. pose proof (Z.div_mod (100 * m) n ltac:(lia)).
    pose proof (Z.mod_pos_bound (100 * m) n ltac:(lia)). nia. }
  assert (Hk100 : 0 <= k <= 100) by nia.
  split.
  - destruct (Z.eq_dec k 0) as [K0|K0].
    + apply Z.le_trans with 0; [lia|]. apply div_scale_lower.
      apply (percent_lat_lower m n 0 0); lia.
    + apply div_scale_lower.
      set (c := ((k - 1) * 2 ^ 52 + 99) / 100).
      assert (Hc : (k - 1) * 2 ^ 52 <= 100 * c <= (k - 1) * 2 ^ 52 + 99).
      { unfold c. pose proof (Z.div_mod ((k - 1) * 2 ^ 52 + 99) 100 ltac:(lia)).
        pose proof (Z.mod_pos_bound ((k - 1) * 2 ^ 52 + 99) 100 ltac:(lia)). lia. }
      apply (percent_lat_lower m n c (k - 1)); try lia.
      nia.
  - set (u := (k + 1) * 2 ^ 46 - 1).
    set (c := 64 * u / 100).
    assert (Hc : 64 * u - 99 <= 100 * c <= 64 * u).
    { unfold c. pose proof (Z.div_mod (64 * u) 100 ltac:(lia)).
      pose proof (Z.mod_pos_bound (64 * u) 100 ltac:(lia)). lia. }
    assert (Hu : 0 <= u < 2 ^ 53) by (unfold u; lia).
    apply Z.le_trans with (u / 2 ^ 46).
    + apply div_scale_upper; [lia|].
      apply (percent_lat_upper m n c u); try lia.
      unfold u in *. nia.
    + unfold u. apply Z.lt_succ_r. apply Z.div_lt_upper_bound; lia.
Qed.

Lemma percent_lat_mono m n m' n' :
  0 <= m -> 0 < n -> 0 < n' -> m * n' <= m' * n ->
  percent_lat m n <= percent_lat m' n'.
Proof.
  intros Hm Hn Hn' H. unfold percent_lat. pose proof scale_pos as Hs.
  assert (I : Lattice.round (m * scale) n <= Lattice.round (m' * scale) n')
    by (apply round_mono; nia).
  assert (I0 : 0 <= Lattice.round (m * scale) n) by (apply round_nonneg; nia).
  apply round_mono_num; [lia| |].
  - apply Z.mul_nonneg_nonneg; lia.
  - apply Z.mul_le_mono_nonneg_r; lia.
Qed.

(** A larger share gives a percentage at least as large. *)
Lemma truncated_percent_mono m n m' n' v v' :
  0 <= m <= n -> 0 < n -> 0 <= m' <= n' -> 0 < n' -> m * n' <= m' * n ->
  truncated_percent m n = Ok v -> truncated_percent m' n' = Ok v' -> v <= v'.
Proof.
  intros Hm Hn Hm' Hn' H.
  rewrite !truncated_percent_lattice by lia. intros [= <-] [= <-].
  apply Z.div_le_mono; [apply scale_pos|]. apply percent_lat_mono; lia.
Qed.

(** The whole is 100 percent, nothing is 0 percent. *)
Lemma truncated_percent_full n : 1 <= n -> truncated_percent n n = Ok 100.
Proof.
  intros Hn.
  destruct (truncated_percent_bounds n n ltac:(lia) ltac:(lia)) as (v & Hv & Bv).
  rewrite Hv. f_equal.
  rewrite truncated_percent_lattice in Hv by lia. injection Hv as <-.
  assert (100 <= percent_lat n n / scale); [|lia].
  apply div_scale_lower. apply (percent_lat_lower n n (2 ^ 52) 100); lia.
Qed.

Lemma truncated_percent_zero n : 1 <= n -> truncated_percent 0 n = Ok 0.
Proof.
  intros Hn.
  destruct (truncated_percent_bounds 0 n ltac:(lia) ltac:(lia)) as (v & Hv & Bv).
  rewrite Hv. f_equal.
  rewrite truncated_percent_lattice in Hv by lia. injection Hv as <-.
  assert (percent_lat 0 n / scale <= 0 / 2 ^ 46); [|change (0 / 2 ^ 46) with 0 in *; lia].
  apply div_scale_upper; [lia|]. apply (percent_lat_upper 0 n 0 0); lia.
Qed.

End Percentages.

Section Overall.
Import Lattice.
Local Open Scope Z_scope.

Lemma unit_40 : scale = 2 ^ 40 * 2 ^ 1034.
Proof. unfold scale. rewrite <- Z.pow_add_r; [reflexivity|lia|lia]. Qed.

Lemma lat_fin_40 u : lat (Fin u (-40)) = u * 2 ^ 1034.
Proof. reflexivity. Qed.

Lemma below_top u : 0 <= u < 2 ^ 53 -> u * 2 ^ 1034 < top.
Proof.
  intros Hu. unfold top.
  apply Z.lt_le_trans with (2 ^ 53 * 2 ^ 1034).
  - apply Z.mul_lt_mono_pos_r; [apply pow2_pos|]; lia.
  - rewrite <- Z.pow_add_r by lia. apply Z.pow_le_mono_r; lia.
Qed.

(** Rounding keeps a value between two representable bounds. *)
Lemma round_between P Q lo hi :
  0 < Q -> 0 <= lo -> hi < 2 ^ 53 ->
  lo * 2 ^ 1034 * Q <= P <= hi * 2 ^ 1034 * Q ->
  lo * 2 ^ 1034 <= Lattice.round P Q <= hi * 2 ^ 1034.
Proof.
  intros HQ Hlo Hhi [H1 H2].
  assert (P1034 : 0 < 2 ^ 1034) by (apply pow2_pos; lia).
  assert (Hlh : lo <= hi) by nia.
  split.
  - rewrite <- (lat_fin_40 lo).
    rewrite <- (round_exact_fin lo (-40) Q) by
      (try lia; apply fin_le_top; lia).
    rewrite lat_fin_40. apply round_mono_num; [lia|nia|lia].
  - rewrite <- (lat_fin_40 hi).
    rewrite <- (round_exact_fin hi (-40) Q) by
      (try lia; apply fin_le_top; lia).
    rewrite lat_fin_40. apply round_mono_num; [lia|nia|lia].
Qed.

Lemma float_of_int_exact n :
  0 <= n < 2 ^ 53 ->
  exists m e, float_of_int n = Ok (Fin m e) /\ wf (Fin m e) /\ lat (Fin m e) = n * scale.
Proof.
  intros Hn. unfold float_of_int.
  destruct (round_int_lattice n 1 ltac:(lia) ltac:(lia)) as [E W].
  assert (L : lat (Py.round n 1 0) = n * scale).
  { rewrite E. replace (n * scale) with (lat (Fin n 0)) by reflexivity.
    rewrite <- (round_exact_fin n 0 1) at 2 by (try lia; apply fin_le_top; lia).
    f_equal. lia. }
  assert (T : n * scale < top).
  { unfold scale, top. apply Z.lt_le_trans with (2 ^ 53 * 2 ^ 1074).
    - apply Z.mul_lt_mono_pos_r; [apply pow2_pos|]; lia.
    - rewrite <- Z.pow_add_r by lia. apply Z.pow_le_mono_r; lia. }
  destruct (wf_lt_top_finite _ W ltac:(lia)) as (m & e & Hr).
  rewrite Hr in *. eauto.
Qed.

(** The product of an [int] and a weight [w * 2^-(40+d)]. *)
Lemma int_mul_float_between n w d lo hi :
  0 <= n < 2 ^ 53 -> 0 <= w < 2 ^ 53 -> 0 <= d <= 1034 ->
  0 <= lo -> hi < 2 ^ 53 ->
  lo * 2 ^ d <= n * w <= hi * 2 ^ d ->
  exists m e, int_mul_float n (Fin w (- 40 - d)) = Ok (Fin m e) /\ wf (Fin m e)
              /\ bracketed lo (Fin m e) hi.
Proof.
  intros Hn Hw Hd Hlo Hhi [H1 H2].
  destruct (float_of_int_exact n Hn) as (m0 & e0 & E0 & W0 & L0).
  unfold int_mul_float. rewrite E0, bind_Ok. unfold mret, res_ret.
  assert (Ww : wf (Fin w (- 40 - d))).
  { simpl. repeat split; try lia.
    apply Z.lt_le_trans with (2 ^ 53 * 2 ^ (- 40 - d + 1074)).
    - apply Z.mul_lt_mono_pos_r; [apply pow2_pos|]; lia.
    - rewrite <- Z.pow_add_r by lia. unfold top. apply Z.pow_le_mono_r; lia. }
  destruct (fmul_lattice m0 e0 w (- 40 - d) W0 Ww) as [E W].
  assert (B : lo * 2 ^ 1034 <= lat (fmul (Fin m0 e0) (Fin w (- 40 - d))) <= hi * 2 ^ 1034).
  { rewrite E, L0. apply round_between; try lia; [apply scale_pos|].
    rewrite lat_fin. replace (- 40 - d + 1074) with (1034 - d) by lia.
    assert (P : 2 ^ 1034 = 2 ^ d * 2 ^ (1034 - d))
      by (rewrite <- Z.pow_add_r by lia; f_equal; lia).
    pose proof scale_pos. pose proof (pow2_pos d ltac:(lia)).
    pose proof (pow2_pos (1034 - d) ltac:(lia)).
    rewrite P. split.
    - replace (lo * (2 ^ d * 2 ^ (1034 - d)) * scale)
        with (lo * 2 ^ d * (2 ^ (1034 - d) * scale)) by ring.
      replace (n * scale * (w * 2 ^ (1034 - d)))
        with (n * w * (2 ^ (1034 - d) * scale)) by ring.
      apply Z.mul_le_mono_nonneg_r; nia.
    - replace (hi * (2 ^ d * 2 ^ (1034 - d)) * scale)
        with (hi * 2 ^ d * (2 ^ (1034 - d) * scale)) by ring.
      replace (n * scale * (w * 2 ^ (1034 - d)))
        with (n * w * (2 ^ (1034 - d) * scale)) by ring.
      apply Z.mul_le_mono_nonneg_r; nia. }
  assert (Hlh : lo <= hi) by (pose proof (pow2_pos d ltac:(lia)); nia).
  pose proof (below_top hi ltac:(lia)) as T.
  destruct (wf_lt_top_finite _ W ltac:(lia)) as (m & e & Hr).
  rewrite Hr in *. exists m, e. unfold bracketed. auto.
Qed.

(** The sum of two floats between bounds is between the sums of the
    bounds. *)
Lemma fadd_between m1 e1 m2 e2 lo1 hi1 lo2 hi2 :
  wf (Fin m1 e1) -> wf (Fin m2 e2) ->
  bracketed lo1 (Fin m1 e1) hi1 -> bracketed lo2 (Fin m2 e2) hi2 ->
  0 <= lo1 -> 0 <= lo2 -> hi1 + hi2 < 2 ^ 53 ->
  exists m e, fadd (Fin m1 e1) (Fin m2 e2) = Fin m e /\ wf (Fin m e)
              /\ bracketed (lo1 + lo2) (Fin m e) (hi1 + hi2).
Proof.
  intros W1 W2 [L1 U1] [L2 U2] Hlo1 Hlo2 Hhi.
  destruct (fadd_lattice m1 e1 m2 e2 W1 W2) as [E W].
  assert (B : (lo1 + lo2) * 2 ^ 1034 <= lat (fadd (Fin m1 e1) (Fin m2 e2))
              <= (hi1 + hi2) * 2 ^ 1034).
  { rewrite E. apply round_between; lia. }
  assert (P1034 : 0 < 2 ^ 1034) by (apply pow2_pos; lia).
  assert (Hlh : 0 <= hi1 + hi2) by nia.
  pose proof (below_top (hi1 + hi2) ltac:(lia)) as T.
  destruct (wf_lt_top_finite _ W ltac:(lia)) as (m & e & Hr).
  rewrite Hr in *. exists m, e. unfold bracketed. auto.
Qed.

Lemma int_of_float_between m e lo hi :
  wf (Fin m e) -> bracketed lo (Fin m e) hi ->
  exists v, int_of_float (Fin m e) = Ok v /\ lo / 2 ^ 40 <= v <= hi / 2 ^ 40.
Proof.
  intros (H1 & H2 & _) [L U]. simpl int_of_float. eexists; split; [reflexivity|].
  rewrite shiftl_lat by assumption. rewrite unit_40.
  assert (P1034 : 0 < 2 ^ 1034) by (apply pow2_pos; lia).
  rewrite <- (Z.div_mul_cancel_r lo (2 ^ 40) (2 ^ 1034)) by lia.
  rewrite <- (Z.div_mul_cancel_r hi (2 ^ 40) (2 ^ 1034)) by lia.
  split; apply Z.div_le_mono; nia.
Qed.

(** The overall score is the integer part of the weighted sum in exact
    arithmetic, or one less; it is the integer part when the weighted sum is
    not a whole number. *)
Lemma overall_of_within_one s e k t :
  0 <= s <= 100 -> 0 <= e <= 100 -> 0 <= k <= 100 -> 0 <= t <= 100 ->
  exists o, overall_of s e k t = Ok o
            /\ (4 * s + 3 * e + 2 * k + t) / 10 - 1 <= o <= (4 * s + 3 * e + 2 * k + t) / 10
            /\ ((4 * s + 3 * e + 2 * k + t) mod 10 <> 0 ->
                o = (4 * s + 3 * e + 2 * k + t) / 10).
Proof.
  intros Hs He Hk Ht. unfold overall_of.
  replace (literal 4 10) with (Fin 7205759403792794 (- 40 - 14)) by (vm_compute; reflexivity).
  replace (literal 3 10) with (Fin 5404319552844595 (- 40 - 14)) by (vm_compute; reflexivity).
  replace (literal 2 10) with (Fin 7205759403792794 (- 40 - 15)) by (vm_compute; reflexivity).
  replace (literal 1 10) with (Fin 7205759403792794 (- 40 - 16)) by (vm_compute; reflexivity).
  remember (s * 7205759403792794 / 16384) as la eqn:Ela.
  remember ((s * 7205759403792794 + 16383) / 16384) as ha eqn:Eha.
  remember (e * 5404319552844595 / 16384) as lb eqn:Elb.
  remember ((e * 5404319552844595 + 16383) / 16384) as hb eqn:Ehb.
  remember (k * 7205759403792794 / 32768) as lc eqn:Elc.
  remember ((k * 7205759403792794 + 32767) / 32768) as hc eqn:Ehc.
  remember (t * 7205759403792794 / 65536) as ld eqn:Eld.
  remember ((t * 7205759403792794 + 65535) / 65536) as hd eqn:Ehd.
  assert (P53 : 2 ^ 53 = 9007199254740992) by reflexivity.
  destruct (int_mul_float_between s 7205759403792794 14 la ha)
    as (ma & ea & -> & Wa & Ba); try (Z.to_euclidean_division_equations; lia).
  rewrite bind_Ok.
  destruct (int_mul_float_between e 5404319552844595 14 lb hb)
    as (mb & eb & -> & Wb & Bb); try (Z.to_euclidean_division_equations; lia).
  rewrite bind_Ok.
  destruct (int_mul_float_between k 7205759403792794 15 lc hc)
    as (mc & ec & -> & Wc & Bc); try (Z.to_euclidean_division_equations; lia).
  rewrite bind_Ok.
  destruct (int_mul_float_between t 7205759403792794 16 ld hd)
    as (md & ed & -> & Wd & Bd); try (Z.to_euclidean_division_equations; lia).
  rewrite bind_Ok.
  destruct (fadd_between ma ea mb eb la ha lb hb Wa Wb Ba Bb)
    as (m1 & e1 & -> & W1 & B1); try (Z.to_euclidean_division_equations; lia).
  destruct (fadd_between m1 e1 mc ec _ _ lc hc W1 Wc B1 Bc)
    as (m2 & e2 & -> & W2 & B2); try (Z.to_euclidean_division_equations; lia).
  destruct (fadd_between m2 e2 md ed _ _ ld hd W2 Wd B2 Bd)
    as (m3 & e3 & -> & W3 & B3); try (Z.to_euclidean_division_equations; lia).
  destruct (int_of_float_between m3 e3 _ _ W3 B3) as (o & -> & Bo).
  exists o. split; [reflexivity|].
  change (2 ^ 40) with 1099511627776 in Bo.
  split; [|intros Hmod]; Z.to_euclidean_division_equations; lia.
Qed.

End Overall.

Section ScorerFacts.
Local Open Scope Z_scope.

Lemma len_professional_terms : len professional_terms = 14.
Proof. vm_compute. reflexivity. Qed.

Lemma len_empty : len ∅ = 0.
Proof. reflexivity. Qed.

(** Property X6.  With n keywords in the job description (n at most 2^44) of
    which m are in the resume, the keywords match returned is the integer
    quotient of 100 * m by n, or one less. *)
Theorem keywords_match_within_one
    resume_text jd_text overall skills experience keywords summary :
  keyword_set jd_text <> ∅ ->
  len (keyword_set jd_text) <= 2 ^ 44 ->
  calculate_match_score resume_text jd_text
  = Ok (overall, skills, experience, keywords, summary) ->
  let m := len (keyword_set jd_text ∩ keyword_set resume_text) in
  let n := len (keyword_set jd_text) in
  100 * m / n - 1 <= keywords <= 100 * m / n.
Proof.
  intros HJ Hn H m n.
  destruct (score_inversion _ _ _ _ _ _ _ HJ H) as (_ & Hk & _).
  fold m n in Hk.
  destruct (truncated_percent_within_one m n) as (v & Hv & Bv).
  - split; [apply len_nonneg|apply len_subseteq, intersection_subseteq_l].
  - pose proof (len_pos _ HJ). unfold n. lia.
  - congruence.
Qed.

Lemma keywords_match_within_one_witness :
  keyword_set sample_job <> ∅
  /\ len (keyword_set sample_job) <= 2 ^ 44
  /\ calculate_match_score sample_resume sample_job
     = Ok (41, 60, 30, 33,
           "Your resume matches 33% of job keywords with 60% skill alignment.")
  /\ 100 * len (keyword_set sample_job ∩ keyword_set sample_resume)
         / len (keyword_set sample_job) - 1 <= 33
     <= 100 * len (keyword_set sample_job ∩ keyword_set sample_resume)
         / len (keyword_set sample_job).
Proof.
  assert (L : len (keyword_set sample_job) <= 2 ^ 44)
    by (apply Z.leb_le; vm_compute; reflexivity).
  split; [exact sample_job_has_keywords|]. split; [exact L|].
  split; [exact sample_score|].
  exact (keywords_match_within_one _ _ _ _ _ _ _ sample_job_has_keywords L sample_score).
Defined.

Lemma tone_of_quotient (resume_set : gset string) :
  tone_of resume_set = Ok (100 * len (resume_set ∩ professional_terms) / 14).
Proof.
  rewrite tone_of_percent, len_professional_terms. change (Z.max 1 14) with 14.
  apply truncated_percent_small; [|lia].
  split; [apply len_nonneg|].
  rewrite <- len_professional_terms. apply len_subseteq, intersection_subseteq_r.
Qed.

(** Property X8.  The tone match is the integer quotient of 100 * k by 14,
    where k (from 0 to 14) is the number of the professional terms among the
    keywords of the resume: the float computation loses nothing.  It is 100
    exactly when all 14 terms are there. *)
Theorem tone_of_exact (resume_set : gset string) :
  let k := len (resume_set ∩ professional_terms) in
  tone_of resume_set = Ok (100 * k / 14)
  /\ 0 <= k <= 14
  /\ (100 * k / 14 = 100 <-> professional_terms ⊆ resume_set).
Proof.
  intros k.
  assert (Bk : 0 <= k <= 14).
  { split; [apply len_nonneg|]. rewrite <- len_professional_terms.
    apply len_subseteq, intersection_subseteq_r. }
  split; [apply tone_of_quotient|]. split; [exact Bk|].
  split.
  - intros H. assert (K : k = 14) by (Z.to_euclidean_division_equations; lia).
    assert (E : resume_set ∩ professional_terms ≡ professional_terms).
    { apply set_subseteq_size_equiv; [apply intersection_subseteq_r|].
      unfold k, len in K. pose proof len_professional_terms as L. unfold len in L. lia. }
    intros x Hx. apply E in Hx. apply elem_of_intersection in Hx. tauto.
  - intros H.
    assert (E : resume_set ∩ professional_terms = professional_terms).
    { apply set_eq. intros x. rewrite elem_of_intersection. split; [tauto|].
      intros Hx. split; [apply H, Hx|exact Hx]. }
    unfold k. rewrite E, len_professional_terms. reflexivity.
Qed.

(** Property X7.  The overall score returned is the integer part of (4 *
    skills + 3 * experience + 2 * keywords + tone) / 10 in exact arithmetic,
    or one less; it is the integer part whenever that weighted sum is not a
    multiple of 10.  Here tone is the quotient of 100 * k by 14, k the
    number of professional terms in the resume. *)
Theorem overall_score_within_one
    resume_text jd_text overall skills experience keywords summary :
  keyword_set jd_text <> ∅ ->
  calculate_match_score resume_text jd_text
  = Ok (overall, skills, experience, keywords, summary) ->
  let tone := 100 * len (keyword_set resume_text ∩ professional_terms) / 14 in
  let weighted := 4 * skills + 3 * experience + 2 * keywords + tone in
  weighted / 10 - 1 <= overall <= weighted / 10
  /\ (weighted mod 10 <> 0 -> overall = weighted / 10).
Proof.
  intros HJ H tone weighted.
  destruct (score_inversion _ _ _ _ _ _ _ HJ H)
    as (_ & _ & _ & (t & Ht & Bt & Ho) & _ & _ & Bs & Be & Bk).
  rewrite tone_of_quotient in Ht. injection Ht as Ht. fold tone in Ht. subst t.
  destruct (overall_of_within_one skills experience keywords tone Bs Be Bk Bt)
    as (o & Ho' & B1 & B2).
  assert (o = overall) by congruence. subst o.
  fold weighted in B1, B2. split; assumption.
Qed.

Lemma overall_score_within_one_witness :
  keyword_set short_job <> ∅
  /\ calculate_match_score short_resume short_job
     = Ok (22, 16, 40, 16,
           "Your resume matches 16% of job keywords with 16% skill alignment.")
  /\ ((4 * 16 + 3 * 40 + 2 * 16
       + 100 * len (keyword_set short_resume ∩ professional_terms) / 14) / 10 - 1 <= 22
      <= (4 * 16 + 3 * 40 + 2 * 16
          + 100 * len (keyword_set short_resume ∩ professional_terms) / 14) / 10).
Proof.
  assert (J : keyword_set short_job <> ∅).
  { assert (B : bool_decide (keyword_set short_job = ∅) = false)
      by (vm_compute; reflexivity).
    exact (proj1 (bool_decide_eq_false _) B). }
  assert (S : calculate_match_score short_resume short_job
              = Ok (22, 16, 40, 16,
                    "Your resume matches 16% of job keywords with 16% skill alignment."))
    by (vm_compute; reflexivity).
  split; [exact J|]. split; [exact S|].
  exact (proj1 (overall_score_within_one _ _ _ _ _ _ _ J S)).
Defined.

(** Property X9.  A text with a keyword, scored against itself, has keywords
    match 100, and skills match 100 when it names a skill of the catalogue
    and 0 when it names none. *)
Theorem self_match text overall skills experience keywords summary :
  keyword_set text <> ∅ ->
  calculate_match_score text text = Ok (overall, skills, experience, keywords, summary) ->
  keywords = 100
  /\ skills = (if decide (keyword_set text ∩ tech_skills = ∅) then 0 else 100).
Proof.
  intros HJ H.
  destruct (score_inversion _ _ _ _ _ _ _ HJ H) as (_ & Hk & Hs & _).
  split.
  - rewrite (idemp_L (∩) (keyword_set text)) in Hk.
    rewrite truncated_percent_full in Hk by (pose proof (len_pos _ HJ); lia).
    congruence.
  - destruct (decide (keyword_set text ∩ tech_skills = ∅)) as [E|N].
    { congruence. }
    rewrite (idemp_L (∩) (keyword_set text ∩ tech_skills)) in Hs.
    rewrite truncated_percent_full in Hs by (pose proof (len_pos _ N); lia).
    congruence.
Qed.

Lemma self_match_witness :
  keyword_set sample_job <> ∅
  /\ calculate_match_score sample_job sample_job
     = Ok (60, 100, 0, 100,
           "Your resume matches 100% of job keywords with 100% skill alignment.")
  /\ 100 = 100
  /\ 100 = (if decide (keyword_set sample_job ∩ tech_skills = ∅) then 0 else 100).
Proof.
  assert (S : calculate_match_score sample_job sample_job
              = Ok (60, 100, 0, 100,
                    "Your resume matches 100% of job keywords with 100% skill alignment."))
    by (vm_compute; reflexivity).
  split; [exact sample_job_has_keywords|]. split; [exact S|].
  exact (self_match _ _ _ _ _ _ sample_job_has_keywords S).
Defined.

(** Property X10.  When the resume shares no keyword with the job
    description, the keywords match and the skills match returned are both
    0. *)
Theorem no_common_keyword
    resume_text jd_text overall skills experience keywords summary :
  keyword_set jd_text <> ∅ ->
  keyword_set jd_text ∩ keyword_set resume_text = ∅ ->
  calculate_match_score resume_text jd_text
  = Ok (overall, skills, experience, keywords, summary) ->
  keywords = 0 /\ skills = 0.
Proof.
  intros HJ HD H.
  destruct (score_inversion _ _ _ _ _ _ _ HJ H) as (_ & Hk & Hs & _).
  split.
  - rewrite HD, len_empty in Hk.
    rewrite truncated_percent_zero in Hk by (pose proof (len_pos _ HJ); lia).
    congruence.
  - destruct (decide (keyword_set jd_text ∩ tech_skills = ∅)) as [E|N].
    { congruence. }
    assert (D : keyword_set jd_text ∩ tech_skills ∩ (keyword_set resume_text ∩ tech_skills)
                = ∅).
    { apply elem_of_equiv_empty_L. intros x Hx.
      apply elem_of_intersection in Hx as [H1 H2].
      apply elem_of_intersection in H1 as [H1 _].
      apply elem_of_intersection in H2 as [H2 _].
      apply (not_elem_of_empty (C := gset string) x).
      rewrite <- HD. apply elem_of_intersection. split; assumption. }
    rewrite D in Hs.
    rewrite len_empty in Hs.
    rewrite truncated_percent_zero in Hs by (pose proof (len_pos _ N); lia).
    congruence.
Qed.

(** Property X11.  If every keyword of one resume is a keyword of another,
    then against the same job description the keywords match and the skills
    match of the second are at least those of the first. *)
Theorem match_monotone resume_text resume_text' jd_text
    overall skills experience keywords summary
    overall' skills' experience' keywords' summary' :
  keyword_set resume_text ⊆ keyword_set resume_text' ->
  calculate_match_score resume_text jd_text
  = Ok (overall, skills, experience, keywords, summary) ->
  calculate_match_score resume_text' jd_text
  = Ok (overall', skills', experience', keywords', summary') ->
  keywords <= keywords' /\ skills <= skills'.
Proof.
  intros HS H H'.
  destruct (decide (keyword_set jd_text = ∅)) as [E|HJ].
  - rewrite (calculate_empty _ _ E) in H. rewrite (calculate_empty _ _ E) in H'.
    injection H as <- <- <- <- <-. injection H' as <- <- <- <- <-. lia.
  - destruct (score_inversion _ _ _ _ _ _ _ HJ H) as (_ & Hk & Hs & _).
    destruct (score_inversion _ _ _ _ _ _ _ HJ H') as (_ & Hk' & Hs' & _).
    pose proof (len_pos _ HJ) as Pn.
    assert (I : keyword_set jd_text ∩ keyword_set resume_text
                ⊆ keyword_set jd_text ∩ keyword_set resume_text').
    { intros x Hx. apply elem_of_intersection in Hx as [H1 H2].
      apply elem_of_intersection. split; [assumption|apply HS, H2]. }
    split.
    + apply (truncated_percent_mono
               (len (keyword_set jd_text ∩ keyword_set resume_text))
               (len (keyword_set jd_text))
               (len (keyword_set jd_text ∩ keyword_set resume_text'))
               (len (keyword_set jd_text))); try assumption.
      * split; [apply len_nonneg|apply len_subseteq, intersection_subseteq_l].
      * split; [apply len_nonneg|apply len_subseteq, intersection_subseteq_l].
      * apply Z.mul_le_mono_nonneg_r; [lia|apply len_subseteq, I].
    + destruct (decide (keyword_set jd_text ∩ tech_skills = ∅)) as [E|N].
      { injection Hs as <-. injection Hs' as <-. lia. }
      pose proof (len_pos _ N) as Ps.
      assert (I' : keyword_set jd_text ∩ tech_skills ∩ (keyword_set resume_text ∩ tech_skills)
                   ⊆ keyword_set jd_text ∩ tech_skills
                     ∩ (keyword_set resume_text' ∩ tech_skills)).
      { intros x Hx. apply elem_of_intersection in Hx as [H1 H2].
        apply elem_of_intersection in H2 as [H2 H3].
        apply elem_of_intersection. split; [exact H1|].
        apply elem_of_intersection. split; [apply HS, H2|exact H3]. }
      apply (truncated_percent_mono
               (len (keyword_set jd_text ∩ tech_skills
                     ∩ (keyword_set resume_text ∩ tech_skills)))
               (len (keyword_set jd_text ∩ tech_skills))
               (len (keyword_set jd_text ∩ tech_skills
                     ∩ (keyword_set resume_text' ∩ tech_skills)))
               (len (keyword_set jd_text ∩ tech_skills))); try assumption.
      * split; [apply len_nonneg|apply len_subseteq, intersection_subseteq_l].
      * split; [apply len_nonneg|apply len_subseteq, intersection_subseteq_l].
      * apply Z.mul_le_mono_nonneg_r; [lia|apply len_subseteq, I'].
Qed.

End ScorerFacts.

(* ===================================================================== *)
(** * Further properties: the keyword analyser *)
(* ===================================================================== *)

Section KeywordFacts.

Lemma lower_app a b : lower (a +:+ b) = lower a +:+ lower b.
Proof.
  induction a as [|c a IH]; [reflexivity|].
  rewrite app_cons. simpl lower. rewrite IH, app_cons. reflexivity.
Qed.

Lemma lower_char_idem c : lower_char (lower_char c) = lower_char c.
Proof. destruct c as [[] [] [] [] [] [] [] []]; vm_compute; reflexivity. Qed.

Lemma lower_idem s : lower (lower s) = lower s.
Proof.
  induction s as [|c s IH]; [reflexivity|].
  simpl. rewrite lower_char_idem, IH. reflexivity.
Qed.

(** Lower-casing keeps a character on its side of [\w]. *)
Lemma is_word_lower_char c : is_word (lower_char c) = is_word c.
Proof. destruct c as [[] [] [] [] [] [] [] []]; vm_compute; reflexivity. Qed.

Lemma runs_app p cur a c b :
  p c = false ->
  runs p cur (a +:+ String c b) = runs p cur a ++ runs p EmptyString b.
Proof.
  intros Hc. revert cur. induction a as [|x a IH]; intros cur.
  - rewrite app_nil. simpl. rewrite Hc. destruct cur; reflexivity.
  - rewrite app_cons. simpl. destruct (p x).
    + apply IH.
    + rewrite IH. destruct cur; reflexivity.
Qed.

Lemma keywords_by_word_runs_app a c b :
  is_word c = false ->
  keywords_by_word_runs (a +:+ String c b)
  = keywords_by_word_runs a ++ keywords_by_word_runs b.
Proof.
  intros Hc. unfold keywords_by_word_runs.
  rewrite lower_app. simpl lower.
  rewrite runs_app by (rewrite is_word_lower_char; exact Hc).
  rewrite !filter_app. reflexivity.
Qed.

(** A run is a piece of the text it is cut from. *)
Lemma runs_substring p w s cur :
  w ∈ runs p cur s -> exists pre post, cur +:+ s = pre +:+ w +:+ post.
Proof.
  revert cur. induction s as [|c s IH]; intros cur Hw; simpl in Hw.
  - destruct cur as [|x cur]; [inversion Hw|].
    apply list_elem_of_singleton in Hw. subst w.
    exists EmptyString, EmptyString. rewrite app_nil, !append_empty_r. reflexivity.
  - destruct (p c).
    + destruct (IH _ Hw) as (pre & post & E). exists pre, post.
      rewrite <- E, append_assoc', app_cons, app_nil. reflexivity.
    + assert (Hs : w ∈ runs p EmptyString s ->
                   exists pre post, cur +:+ String c s = pre +:+ w +:+ post).
      { intros H. destruct (IH _ H) as (pre & post & E). rewrite app_nil in E.
        exists (cur +:+ String c pre), post.
        rewrite append_assoc', app_cons. rewrite E. reflexivity. }
      destruct cur as [|x cur]; [exact (Hs Hw)|].
      apply elem_of_cons in Hw as [->|Hw]; [|exact (Hs Hw)].
      exists EmptyString, (String c s). rewrite app_nil. reflexivity.
Qed.

Lemma startswith_self w post : startswith (w +:+ post) w = true.
Proof.
  induction w as [|c w IH]; [destruct post; reflexivity|].
  rewrite app_cons. simpl. rewrite Ascii.eqb_refl. exact IH.
Qed.

Lemma occurs_inside pre w post : occurs w (pre +:+ w +:+ post) = true.
Proof.
  induction pre as [|c pre IH].
  - rewrite app_nil. pose proof (startswith_self w post) as H.
    destruct (w +:+ post); cbn [occurs]; rewrite H; reflexivity.
  - rewrite app_cons. apply occurs_cons, IH.
Qed.

(** Property X12.  Every keyword [extract_keywords] returns is made of the
    letters a-z only, has at least three characters, is no stop word, and
    occurs in the lower-cased text. *)
Theorem keywords_are_clean text :
  Forall (fun w => all_chars is_az w = true
                   /\ (3 <= String.length w)%nat
                   /\ (w ∉ stop_words)
                   /\ occurs w (lower text) = true)
         (extract_keywords text).
Proof.
  rewrite extract_keywords_word_runs. unfold keywords_by_word_runs.
  apply Forall_forall. intros w Hw.
  apply list_elem_of_filter in Hw as [[Hlen Hstop] Hw].
  apply list_elem_of_filter in Hw as [Haz Hw].
  repeat split; try assumption.
  destruct (runs_substring _ _ _ _ Hw) as (pre & post & E).
  rewrite app_nil in E. rewrite E. apply occurs_inside.
Qed.

Lemma extract_keywords_concat a c b :
  is_word c = false ->
  extract_keywords (a +:+ String c b) = extract_keywords a ++ extract_keywords b.
Proof.
  intros Hc. rewrite !extract_keywords_word_runs. apply keywords_by_word_runs_app, Hc.
Qed.

(** Property X13.  The keywords of two texts joined by a character that is
    no word character (a blank, a newline, punctuation) are the keywords of
    the first followed by those of the second, and the keyword set is the
    union of the two keyword sets. *)
Theorem extract_keywords_app a c b :
  is_word c = false ->
  extract_keywords (a +:+ String c b) = extract_keywords a ++ extract_keywords b
  /\ keyword_set (a +:+ String c b) = keyword_set a ∪ keyword_set b.
Proof.
  intros Hc. split; [apply extract_keywords_concat, Hc|].
  unfold keyword_set. rewrite extract_keywords_concat by exact Hc.
  apply list_to_set_app_L.
Qed.

Lemma extract_keywords_app_witness :
  is_word " " = false
  /\ extract_keywords ("python3 developer" +:+ String " " "Senior Engineer")
     = extract_keywords "python3 developer" ++ extract_keywords "Senior Engineer".
Proof.
  split; [reflexivity|]. apply (proj1 (extract_keywords_app _ " " _ eq_refl)).
Defined.

Lemma keyword_set_lower text : keyword_set (lower text) = keyword_set text.
Proof.
  unfold keyword_set, extract_keywords. rewrite lower_idem. reflexivity.
Qed.

Lemma keyword_set_app a c b :
  is_word c = false ->
  keyword_set (a +:+ String c b) = keyword_set a ∪ keyword_set b.
Proof.
  intros Hc. unfold keyword_set. rewrite extract_keywords_concat by exact Hc.
  apply list_to_set_app_L.
Qed.

Lemma calculate_by_jd_set resume_text jd_text jd_text' :
  keyword_set jd_text = keyword_set jd_text' ->
  calculate_match_score resume_text jd_text = calculate_match_score resume_text jd_text'.
Proof.
  intros E. unfold calculate_match_score. fold (keyword_set jd_text).
  fold (keyword_set jd_text'). rewrite E. reflexivity.
Qed.

(** Property X14.  Lower-casing the job description does not change the
    result of [calculate_match_score], and neither does exchanging two parts
    of it that a non-word character separates. *)
Theorem job_description_case_and_order resume_text :
  (forall jd_text,
      calculate_match_score resume_text (lower jd_text)
      = calculate_match_score resume_text jd_text)
  /\ (forall a b c,
         is_word c = false ->
         calculate_match_score resume_text (a +:+ String c b)
         = calculate_match_score resume_text (b +:+ String c a)).
Proof.
  split.
  - intros jd_text. apply calculate_by_jd_set, keyword_set_lower.
  - intros a b c Hc. apply calculate_by_jd_set.
    rewrite !keyword_set_app by exact Hc. apply (comm_L (∪)).
Qed.

End KeywordFacts.

(* ===================================================================== *)
(** * Further properties: the years of experience *)
(* ===================================================================== *)

Section YearsPattern.
Local Open Scope Z_scope.

(** What follows the group in the years pattern. *)
Local Abbreviation after_digits :=
  (Re.seq_of
     [Re.Star is_space;
      Re.Alt
        (Re.seq_of [Re.Chr (Re.lit_i "y"); Re.Chr (Re.lit_i "e"); Re.Chr (Re.lit_i "a");
                    Re.Chr (Re.lit_i "r"); Re.Opt (Re.lit_i "s")])
        (Re.seq_of [Re.Chr (Re.lit_i "y"); Re.Chr (Re.lit_i "r"); Re.Chr (Re.lit_i "s")])]).

Lemma match_at_no_digit prev s :
  stops is_digit s = true -> Re.match_at years_pattern prev s = None.
Proof.
  intros H. unfold Re.match_at, years_pattern. cbn [Re.seq_of Re.exec].
  destruct s as [|c s]; [reflexivity|]. cbn [stops] in H.
  destruct (is_digit c); [discriminate|reflexivity].
Qed.

(** Before the first digit nothing matches. *)
Lemma scan_no_digit pre s prev :
  all_chars not_digit pre = true ->
  Re.findall_scan years_pattern prev (pre +:+ s) 0
  = Re.findall_scan years_pattern (last_of pre prev) s 0.
Proof.
  revert prev. induction pre as [|c pre IH]; intros prev H; [reflexivity|].
  cbn [all_chars] in H. apply andb_prop in H as [Hc H].
  rewrite app_cons. cbn [Re.findall_scan].
  rewrite match_at_no_digit by (cbn [stops]; exact Hc).
  cbn [last_of]. apply IH, H.
Qed.

Lemma findall_no_digit text :
  all_chars not_digit text = true -> Re.findall years_pattern text = [].
Proof.
  intros H. unfold Re.findall.
  rewrite <- (append_empty_r text), scan_no_digit by exact H.
  cbn [Re.findall_scan]. rewrite match_at_no_digit by reflexivity. reflexivity.
Qed.












End YearsPattern.

Section StatedYears.
Import Lattice.
Local Open Scope Z_scope.




(** Property X5.  On a resume that holds no digit the experience match is 0
    and [calculate_match_score] returns, whatever the job description. *)
Theorem resume_without_digits resume_text jd_text :
  all_chars not_digit resume_text = true ->
  experience_of resume_text = Ok 0
  /\ exists overall skills keywords summary,
       calculate_match_score resume_text jd_text
       = Ok (overall, skills, 0, keywords, summary).
Proof.
  intros H.
  assert (E : experience_of resume_text = Ok 0)
    by (rewrite experience_of_unfold, findall_no_digit by exact H; reflexivity).
  split; [exact E|].
  destruct (decide (keyword_set jd_text = ∅)) as [J|J].
  - rewrite (calculate_empty _ _ J). eexists _, _, _, _. reflexivity.
  - destruct (score_returns resume_text jd_text 0 J E)
      as (k & s & t & o & _ & _ & _ & _ & Hc & _).
    rewrite Hc. eexists _, _, _, _. reflexivity.
Qed.

End StatedYears.

(* ===================================================================== *)
(** * Further properties: the request handlers *)
(* ===================================================================== *)

Section MoreHandlerFacts.
Local Open Scope Z_scope.

Variable pdf_page_texts : list byte -> res (list string).
Variable docx_paragraph_texts : list byte -> res (list string).
Variable decode_utf8 : list byte -> res string.
Variable repr_container : json -> string.

Local Abbreviation extract := (extract_text pdf_page_texts docx_paragraph_texts decode_utf8).
Local Abbreviation extract_body :=
  (extract_text_body pdf_page_texts docx_paragraph_texts decode_utf8).
Local Abbreviation customize :=
  (customize_resume pdf_page_texts docx_paragraph_texts decode_utf8).
Local Abbreviation chat := (chat_with_bot repr_container).
Local Abbreviation interview := (prepare_interview repr_container).

Lemma responds_error msg status :
  status = 400 \/ status = 500 -> responds (error_response msg status).
Proof. intros H. unfold responds, error_response. eexists _, _. split; [reflexivity|]. lia. Qed.

Lemma responds_ok body : responds (Response body 200).
Proof. unfold responds. eexists _, _. split; [reflexivity|]. lia. Qed.

Lemma error_response_inj a s b t :
  error_response a s = error_response b t -> a = b /\ s = t.
Proof.
  intros H.
  pose proof (f_equal (fun o => match o with
                                | Response b _ => b !! "error"
                                | Unhandled _ => None
                                end) H) as Hm.
  pose proof (f_equal (fun o => match o with
                                | Response _ s => s
                                | Unhandled _ => 0
                                end) H) as Hs.
  unfold error_response in Hm, Hs. cbv beta iota in Hm, Hs.
  rewrite !lookup_singleton_eq in Hm. split; congruence.
Qed.

Lemma customize_unfold (generate : backend) files resume_file jd_file :
  files !! "resume" = Some resume_file ->
  files !! "job_description" = Some jd_file ->
  customize (Some generate) files
  = try_except
      (customize_body generate
         (extract (up_stream resume_file) (up_filename resume_file)).1
         (extract (up_stream jd_file) (up_filename jd_file)).1)
      (fun e => error_response (exn_str e) 500).
Proof. intros H1 H2. unfold customize_resume. rewrite H1, H2. reflexivity. Qed.


Lemma score_bounds resume_text jd_text overall skills experience keywords summary :
  calculate_match_score resume_text jd_text
  = Ok (overall, skills, experience, keywords, summary) ->
  0 <= overall <= 100 /\ 0 <= skills <= 100
  /\ 0 <= experience <= 100 /\ 0 <= keywords <= 100.
Proof.
  intros H. destruct (decide (keyword_set jd_text = ∅)) as [E|N].
  - rewrite (calculate_empty _ _ E) in H. injection H as <- <- <- <- <-. lia.
  - destruct (score_inversion _ _ _ _ _ _ _ N H)
      as (_ & _ & _ & _ & _ & Bo & Bs & Be & Bk). lia.
Qed.

(** The four ways the handler ends once both files are there. *)
Lemma customize_body_cases (generate : backend) r j :
  let o := try_except (customize_body generate r j)
                      (fun e => error_response (exn_str e) 500) in
  ((r = "" \/ j = "") /\ o = error_response "Could not extract text from files" 400)
  \/ (r <> "" /\ j <> "" /\ exists e,
        calculate_match_score r j = Raise e /\ o = error_response (exn_str e) 500)
  \/ (r <> "" /\ j <> "" /\ exists sc e,
        calculate_match_score r j = Ok sc /\ generate (tailor_prompt r j) = Raise e
        /\ o = error_response (exn_str e) 500)
  \/ (r <> "" /\ j <> "" /\ exists overall skills exp keywords summary text,
        calculate_match_score r j = Ok (overall, skills, exp, keywords, summary)
        /\ generate (tailor_prompt r j) = Ok text
        /\ o = Response (customized_body (tailored_of text) r j
                           overall skills exp keywords summary) 200).
Proof.
  unfold customize_body.
  destruct (String.eqb_spec r "") as [Er|Nr]; [left; split; [auto|reflexivity]|].
  destruct (String.eqb_spec j "") as [Ej|Nj]; [left; split; [auto|reflexivity]|].
  right. cbn [orb].
  destruct (calculate_match_score r j) as [[[[[o s] e] k] sm]|x].
  - right. rewrite bind_Ok.
    destruct (generate (tailor_prompt r j)) as [text|x] eqn:G.
    + right. repeat split; try assumption. exists o, s, e, k, sm, text.
      repeat split; reflexivity.
    + left. repeat split; try assumption. exists (o, s, e, k, sm), x.
      repeat split; reflexivity.
  - left. repeat split; try assumption. exists x. split; reflexivity.
Qed.


Lemma status_error msg status : status_of (error_response msg status) = Some status.
Proof. reflexivity. Qed.

(** Property X15.  [customize_resume] always answers with a JSON body and
    status 200, 400 or 500 - no exception leaves it - and answers 500 Model
    not available when no model is configured. *)
Theorem customize_resume_responds model files :
  responds (customize model files)
  /\ customize None files = error_response "Model not available" 500.
Proof.
  split; [|reflexivity].
  destruct model as [generate|]; [|apply responds_error; auto].
  destruct (files !! "resume") as [rf|] eqn:E1.
  - destruct (files !! "job_description") as [jf|] eqn:E2.
    + rewrite (customize_unfold generate files rf jf E1 E2).
      destruct (customize_body_cases generate
                  (extract (up_stream rf) (up_filename rf)).1
                  (extract (up_stream jf) (up_filename jf)).1)
        as [(_ & ->)|[(_ & _ & e & _ & ->)|[(_ & _ & sc & e & _ & _ & ->)
           |(_ & _ & o & s & x & k & sm & t & _ & _ & ->)]]];
        try (apply responds_error; auto). apply responds_ok.
    + unfold customize_resume. rewrite E1, E2. apply responds_error; auto.
  - unfold customize_resume. rewrite E1. apply responds_error; auto.
Qed.

(** Property X16.  With a model configured, [customize_resume] answers 400
    Missing files exactly when the resume or the job description is absent
    from the uploaded files. *)
Theorem customize_resume_missing_files (generate : backend) files :
  customize (Some generate) files = error_response "Missing files" 400
  <-> files !! "resume" = None \/ files !! "job_description" = None.
Proof.
  destruct (files !! "resume") as [rf|] eqn:E1.
  - destruct (files !! "job_description") as [jf|] eqn:E2.
    + rewrite (customize_unfold generate files rf jf E1 E2).
      split; [|intros [?|?]; discriminate]. intros H. exfalso.
      destruct (customize_body_cases generate
                  (extract (up_stream rf) (up_filename rf)).1
                  (extract (up_stream jf) (up_filename jf)).1)
        as [(_ & Ho)|[(_ & _ & e & _ & Ho)|[(_ & _ & sc & e & _ & _ & Ho)
           |(_ & _ & o & s & x & k & sm & t & _ & _ & Ho)]]];
        rewrite Ho in H.
      * apply error_response_inj in H as [? _]. discriminate.
      * apply error_response_inj in H as [_ ?]. discriminate.
      * apply error_response_inj in H as [_ ?]. discriminate.
      * apply (f_equal status_of) in H. discriminate.
    + unfold customize_resume. rewrite E1, E2. split; [auto|reflexivity].
  - unfold customize_resume. rewrite E1. split; [auto|reflexivity].
Qed.

(** Property X17.  With a model and both files, [customize_resume] answers
    400 Could not extract text from files exactly when the text extracted
    from the resume or from the job description is empty. *)
Theorem customize_resume_unreadable (generate : backend) files resume_file jd_file :
  files !! "resume" = Some resume_file ->
  files !! "job_description" = Some jd_file ->
  customize (Some generate) files
  = error_response "Could not extract text from files" 400
  <-> (extract (up_stream resume_file) (up_filename resume_file)).1 = ""
      \/ (extract (up_stream jd_file) (up_filename jd_file)).1 = "".
Proof.
  intros E1 E2. rewrite (customize_unfold generate files _ _ E1 E2).
  destruct (customize_body_cases generate
              (extract (up_stream resume_file) (up_filename resume_file)).1
              (extract (up_stream jd_file) (up_filename jd_file)).1)
    as [(Hc & Ho)|[(Nr & Nj & e & _ & Ho)|[(Nr & Nj & sc & e & _ & _ & Ho)
       |(Nr & Nj & o & s & x & k & sm & t & _ & _ & Ho)]]];
    rewrite Ho.
  - split; [intros _; exact Hc|reflexivity].
  - split; [|intros [?|?]; contradiction].
    intros H. apply error_response_inj in H as [_ ?]. discriminate.
  - split; [|intros [?|?]; contradiction].
    intros H. apply error_response_inj in H as [_ ?]. discriminate.
  - split; [|intros [?|?]; contradiction].
    intros H. apply (f_equal status_of) in H. discriminate.
Qed.

(** A name with none of the three suffixes gives the empty text, whatever
    the stream. *)
Lemma extract_unsupported file_stream name :
  endswith name ".pdf" = false -> endswith name ".docx" = false ->
  endswith name ".txt" = false ->
  (extract file_stream (Some name)).1 = "".
Proof.
  intros H1 H2 H3. rewrite extract_text_of_body. unfold extract_text_body, seek0.
  destruct (closed file_stream); [reflexivity|].
  cbn [mbind res_bind filename_endswith]. rewrite H1, H2, H3. reflexivity.
Qed.

(** Property X18.  With a model and both files, an upload whose name ends in
    none of .pdf, .docx, .txt makes [customize_resume] answer 400 Could not
    extract text from files, whatever the files hold. *)
Theorem customize_resume_unsupported_suffix (generate : backend) files resume_file jd_file name :
  files !! "resume" = Some resume_file ->
  files !! "job_description" = Some jd_file ->
  up_filename resume_file = Some name \/ up_filename jd_file = Some name ->
  endswith name ".pdf" = false -> endswith name ".docx" = false ->
  endswith name ".txt" = false ->
  customize (Some generate) files
  = error_response "Could not extract text from files" 400.
Proof.
  intros E1 E2 Hn H1 H2 H3.
  assert (Hx : forall st, (extract st (Some name)).1 = "")
    by (intros st; apply extract_unsupported; assumption).
  rewrite (customize_unfold generate files _ _ E1 E2).
  destruct (customize_body_cases generate
              (extract (up_stream resume_file) (up_filename resume_file)).1
              (extract (up_stream jd_file) (up_filename jd_file)).1)
    as [(Hc & Ho)|[(Nr & Nj & _)|[(Nr & Nj & _)|(Nr & Nj & _)]]];
    [exact Ho| | |];
    exfalso; destruct Hn as [Hn|Hn]; rewrite Hn in *;
    first [apply Nr, Hx|apply Nj, Hx].
Qed.

(** Property X19.  A 200 answer of [customize_resume] is given only when
    both texts are non-empty, the scorer returned and the backend answered;
    its body holds the two texts, the scores of [calculate_match_score] on
    them, each between 0 and 100, and the completion with its fences
    removed. *)
Theorem customize_resume_success (generate : backend) files body :
  customize (Some generate) files = Response body 200 ->
  exists resume_file jd_file overall skills exp keywords summary text,
    files !! "resume" = Some resume_file
    /\ files !! "job_description" = Some jd_file
    /\ let resume_text := (extract (up_stream resume_file) (up_filename resume_file)).1 in
       let jd_text := (extract (up_stream jd_file) (up_filename jd_file)).1 in
       resume_text <> "" /\ jd_text <> ""
       /\ calculate_match_score resume_text jd_text
          = Ok (overall, skills, exp, keywords, summary)
       /\ generate (tailor_prompt resume_text jd_text) = Ok text
       /\ body = customized_body (tailored_of text) resume_text jd_text
                   overall skills exp keywords summary
       /\ occurs fence (tailored_of text) = false
       /\ 0 <= overall <= 100 /\ 0 <= skills <= 100
       /\ 0 <= exp <= 100 /\ 0 <= keywords <= 100.
Proof.
  intros H.
  destruct (files !! "resume") as [rf|] eqn:E1;
    [|unfold customize_resume in H; rewrite E1 in H;
      apply (f_equal status_of) in H; discriminate].
  destruct (files !! "job_description") as [jf|] eqn:E2;
    [|unfold customize_resume in H; rewrite E1, E2 in H;
      apply (f_equal status_of) in H; discriminate].
  rewrite (customize_unfold generate files rf jf E1 E2) in H.
  destruct (customize_body_cases generate
              (extract (up_stream rf) (up_filename rf)).1
              (extract (up_stream jf) (up_filename jf)).1)
    as [(_ & Ho)|[(_ & _ & e & _ & Ho)|[(_ & _ & sc & e & _ & _ & Ho)
       |(Nr & Nj & o & s & x & k & sm & t & Hc & Hg & Ho)]]];
    rewrite Ho in H; try (apply (f_equal status_of) in H; discriminate).
  exists rf, jf, o, s, x, k, sm, t. split; [reflexivity|]. split; [reflexivity|].
  cbv zeta. split; [exact Nr|]. split; [exact Nj|]. split; [exact Hc|].
  split; [exact Hg|]. split; [congruence|]. split; [apply tailored_has_no_fence|].
  apply (score_bounds _ _ _ _ _ _ _ Hc).
Qed.

(** Property X20.  With both texts non-empty, an exception of the scorer, or
    of the backend once the scorer has returned, makes [customize_resume]
    answer 500 with the text of the exception. *)
Theorem customize_resume_reports_failures (generate : backend) files resume_file jd_file e :
  files !! "resume" = Some resume_file ->
  files !! "job_description" = Some jd_file ->
  let resume_text := (extract (up_stream resume_file) (up_filename resume_file)).1 in
  let jd_text := (extract (up_stream jd_file) (up_filename jd_file)).1 in
  resume_text <> "" -> jd_text <> "" ->
  calculate_match_score resume_text jd_text = Raise e
  \/ ((exists sc, calculate_match_score resume_text jd_text = Ok sc)
      /\ generate (tailor_prompt resume_text jd_text) = Raise e) ->
  customize (Some generate) files = error_response (exn_str e) 500.
Proof.
  intros E1 E2 r j Nr Nj H.
  rewrite (customize_unfold generate files _ _ E1 E2). fold r j.
  destruct (customize_body_cases generate r j)
    as [([Hc|Hc] & _)|[(_ & _ & x & Hx & Ho)|[(_ & _ & sc & x & Hc & Hx & Ho)
       |(_ & _ & o & s & y & k & sm & t & Hc & Hg & Ho)]]]; try contradiction;
    rewrite Ho.
  - destruct H as [H|[[sc Hs] _]].
    + rewrite Hx in H. injection H as ->. reflexivity.
    + rewrite Hx in Hs. discriminate.
  - destruct H as [H|[_ H]].
    + rewrite Hc in H. discriminate.
    + rewrite Hx in H. injection H as ->. reflexivity.
  - destruct H as [H|[_ H]].
    + rewrite Hc in H. discriminate.
    + rewrite Hg in H. discriminate.
Qed.

End MoreHandlerFacts.

Section ChatAndInterview.
Local Open Scope Z_scope.

Variable repr_container : json -> string.

Local Abbreviation chat := (chat_with_bot repr_container).
Local Abbreviation interview := (prepare_interview repr_container).
Local Abbreviation prompt_of := (chat_prompt repr_container).

(** Property X21.  With a model configured, [prepare_interview] answers 400
    Missing data exactly when the resume text or the job description is
    missing or empty in the request. *)
Theorem prepare_interview_validation (generate : backend) data :
  interview (Some generate) data = error_response "Missing data" 400
  <-> missing_or_empty (data !! "resume_text") \/ missing_or_empty (data !! "jd_text").
Proof.
  unfold prepare_interview, missing_or_empty, dict_get.
  destruct (truthy (default JNull (data !! "resume_text"))) eqn:T1;
    destruct (truthy (default JNull (data !! "jd_text"))) eqn:T2; cbn [negb orb];
    try (split; [intros _; auto|reflexivity]).
  split; [|intros [?|?]; discriminate].
  destruct (generate _) as [q|e]; cbn [try_except mbind res_bind mret res_ret];
    intros H; apply (f_equal status_of) in H; discriminate.
Qed.





Lemma add_turns_app acc good rest :
  add_turns repr_container acc ((turn_json <$> good) ++ rest)
  = add_turns repr_container (acc +:+ concat_lines (render_turn <$> good)) rest.
Proof.
  revert acc. induction good as [|t good IH]; intros acc.
  - cbn. rewrite append_empty_r. reflexivity.
  - cbn [fmap list_fmap app add_turns].
    change (list_fmap turn json turn_json good) with (turn_json <$> good).
    rewrite subscript_role. cbn [mbind res_bind title_of].
    rewrite subscript_content. cbn [mbind res_bind format_json].
    rewrite IH. f_equal.
    change (list_fmap turn string render_turn good) with (render_turn <$> good).
    cbn [concat_lines]. unfold render_turn at 2.
    rewrite !append_assoc'. reflexivity.
Qed.

(** Property X24.  With a resume text and a message, a history that is null
    makes [chat_with_bot] fail with a TypeError, and a turn without a role -
    after any number of well-formed turns - with a KeyError: the prompt is
    built outside the try block, so the exception leaves the handler. *)
Theorem chat_malformed_history (generate : backend) data :
  truthy (dict_get data "resume_text") = true ->
  truthy (dict_get data "message") = true ->
  (data !! "history" = Some JNull ->
   exists e, chat (Some generate) data = Unhandled e /\ exn_class e = TypeError)
  /\ (forall good m rest,
         data !! "history" = Some (JArr ((turn_json <$> good) ++ JObj m :: rest)) ->
         m !! "role" = None ->
         exists e, chat (Some generate) data = Unhandled e /\ exn_class e = KeyError).
Proof.
  intros T1 T2. split.
  - intros Hh. unfold chat_with_bot, dict_get_default. rewrite T1, T2, Hh.
    cbn [negb orb default id]. unfold chat_prompt. cbv zeta. cbn [iterate mbind res_bind].
    eexists. split; reflexivity.
  - intros good m rest Hh Hm. unfold chat_with_bot, dict_get_default.
    rewrite T1, T2, Hh. cbn [negb orb default id]. unfold chat_prompt. cbv zeta.
    cbn [iterate mbind res_bind]. rewrite add_turns_app.
    cbn [add_turns subscript mbind res_bind]. rewrite Hm.
    eexists. split; reflexivity.
Qed.

End ChatAndInterview.

Section TailoredText.

Lemma rstrip_idem s : rstrip (rstrip s) = rstrip s.
Proof.
  induction s as [|c s IH]; [reflexivity|].
  cbn [rstrip]. destruct (rstrip s) as [|d r] eqn:E.
  - destruct (is_space c) eqn:Sc; [reflexivity|]. cbn [rstrip]. rewrite Sc. reflexivity.
  - cbn [rstrip]. cbn [rstrip] in IH. rewrite IH. reflexivity.
Qed.

Lemma lstrip_head s :
  lstrip s = EmptyString \/ exists c t, lstrip s = String c t /\ is_space c = false.
Proof.
  induction s as [|c s IH]; [left; reflexivity|].
  cbn [lstrip]. destruct (is_space c) eqn:Sc; [exact IH|].
  right. exists c, s. split; [reflexivity|exact Sc].
Qed.

Lemma lstrip_rstrip c t : is_space c = false -> lstrip (rstrip (String c t)) = rstrip (String c t).
Proof.
  intros Sc. cbn [rstrip]. destruct (rstrip t); [rewrite Sc|]; cbn [lstrip]; rewrite Sc; reflexivity.
Qed.

Lemma strip_idem s : strip (strip s) = strip s.
Proof.
  unfold strip. destruct (lstrip_head s) as [->|(c & t & -> & Sc)]; [reflexivity|].
  rewrite lstrip_rstrip by exact Sc. apply rstrip_idem.
Qed.

Lemma rstrip_last s c : last_char (rstrip s) = Some c -> is_space c = false.
Proof.
  induction s as [|x s IH]; [discriminate|].
  cbn [rstrip]. destruct (rstrip s) as [|d r] eqn:E.
  - destruct (is_space x) eqn:Sx; [discriminate|]. cbn. intros [= <-]. exact Sx.
  - intros H. apply IH. exact H.
Qed.

(** Property X25.  The tailored text has no white space at its start or at
    its end, and cleaning it a second time (removing fences and trimming)
    leaves it unchanged. *)
Theorem tailored_text_is_clean completion :
  tailored_of (tailored_of completion) = tailored_of completion
  /\ strip (tailored_of completion) = tailored_of completion
  /\ (forall c rest, tailored_of completion = String c rest -> is_space c = false)
  /\ (forall c, last_char (tailored_of completion) = Some c -> is_space c = false).
Proof.
  assert (S : strip (tailored_of completion) = tailored_of completion)
    by (unfold tailored_of; apply strip_idem).
  split; [|split; [exact S|split]].
  - rewrite (tailored_without_fence (tailored_of completion)); [exact S|].
    apply tailored_has_no_fence.
  - intros c rest H. unfold tailored_of, strip in H.
    destruct (lstrip_head (replace completion "```" "")) as [E|(d & t & E & Sd)];
      rewrite E in H.
    + discriminate.
    + cbn [rstrip] in H. destruct (rstrip t); [rewrite Sd in H|]; congruence.
  - intros c. unfold tailored_of, strip. apply rstrip_last.
Qed.

End TailoredText.

(* ===================================================================== *)
(** * Sample runs *)
(* ===================================================================== *)

Section SampleRuns.
Local Open Scope Z_scope.

Lemma no_common_keyword_witness :
  keyword_set sample_job <> ∅
  /\ keyword_set sample_job ∩ keyword_set other_resume = ∅
  /\ calculate_match_score other_resume sample_job
     = Ok (0, 0, 0, 0, "Your resume matches 0% of job keywords with 0% skill alignment.")
  /\ 0 = 0 /\ 0 = 0.
Proof.
  assert (D : keyword_set sample_job ∩ keyword_set other_resume = ∅).
  { assert (B : bool_decide (keyword_set sample_job ∩ keyword_set other_resume = ∅) = true)
      by (vm_compute; reflexivity).
    exact (proj1 (bool_decide_eq_true _) B). }
  assert (S : calculate_match_score other_resume sample_job
              = Ok (0, 0, 0, 0,
                    "Your resume matches 0% of job keywords with 0% skill alignment."))
    by (vm_compute; reflexivity).
  split; [exact sample_job_has_keywords|]. split; [exact D|]. split; [exact S|].
  exact (no_common_keyword _ _ _ _ _ _ _ sample_job_has_keywords D S).
Defined.

Lemma match_monotone_witness :
  keyword_set short_resume ⊆ keyword_set longer_resume
  /\ calculate_match_score short_resume sample_job
     = Ok (23, 20, 40, 11,
           "Your resume matches 11% of job keywords with 20% skill alignment.")
  /\ calculate_match_score longer_resume sample_job
     = Ok (44, 60, 40, 33,
           "Your resume matches 33% of job keywords with 60% skill alignment.")
  /\ 11 <= 33 /\ 20 <= 60.
Proof.
  assert (I : keyword_set short_resume ⊆ keyword_set longer_resume).
  { assert (B : bool_decide (keyword_set short_resume ⊆ keyword_set longer_resume) = true)
      by (vm_compute; reflexivity).
    exact (proj1 (bool_decide_eq_true _) B). }
  assert (S : calculate_match_score short_resume sample_job
              = Ok (23, 20, 40, 11,
                    "Your resume matches 11% of job keywords with 20% skill alignment."))
    by (vm_compute; reflexivity).
  assert (S' : calculate_match_score longer_resume sample_job
               = Ok (44, 60, 40, 33,
                     "Your resume matches 33% of job keywords with 60% skill alignment."))
    by (vm_compute; reflexivity).
  split; [exact I|]. split; [exact S|]. split; [exact S'|].
  exact (match_monotone _ _ _ _ _ _ _ _ _ _ _ _ _ I S S').
Defined.

Lemma customize_resume_unreadable_witness :
  files_of "cv.txt" "" "job.txt" sample_job !! "resume" = Some (text_upload "cv.txt" [])
  /\ files_of "cv.txt" "" "job.txt" sample_job !! "job_description"
     = Some (text_upload "job.txt" (list_byte_of_string sample_job))
  /\ customize_resume no_document no_document decode_sample (Some sample_backend)
       (files_of "cv.txt" "" "job.txt" sample_job)
     = error_response "Could not extract text from files" 400.
Proof.
  assert (E1 : files_of "cv.txt" "" "job.txt" sample_job !! "resume"
               = Some (text_upload "cv.txt" [])) by reflexivity.
  assert (E2 : files_of "cv.txt" "" "job.txt" sample_job !! "job_description"
               = Some (text_upload "job.txt" (list_byte_of_string sample_job)))
    by reflexivity.
  split; [exact E1|]. split; [exact E2|].
  apply (proj2 (customize_resume_unreadable no_document no_document decode_sample
                  sample_backend _ _ _ E1 E2)).
  left. reflexivity.
Defined.

Lemma customize_resume_unsupported_suffix_witness :
  files_of "cv.rtf" sample_resume "job.txt" sample_job !! "resume"
  = Some (text_upload "cv.rtf" (list_byte_of_string sample_resume))
  /\ files_of "cv.rtf" sample_resume "job.txt" sample_job !! "job_description"
     = Some (text_upload "job.txt" (list_byte_of_string sample_job))
  /\ endswith "cv.rtf" ".pdf" = false /\ endswith "cv.rtf" ".docx" = false
  /\ endswith "cv.rtf" ".txt" = false
  /\ customize_resume no_document no_document decode_sample (Some sample_backend)
       (files_of "cv.rtf" sample_resume "job.txt" sample_job)
     = error_response "Could not extract text from files" 400.
Proof.
  assert (E1 : files_of "cv.rtf" sample_resume "job.txt" sample_job !! "resume"
               = Some (text_upload "cv.rtf" (list_byte_of_string sample_resume)))
    by reflexivity.
  assert (E2 : files_of "cv.rtf" sample_resume "job.txt" sample_job !! "job_description"
               = Some (text_upload "job.txt" (list_byte_of_string sample_job)))
    by reflexivity.
  repeat (split; [first [exact E1|exact E2|reflexivity]|]).
  apply (customize_resume_unsupported_suffix no_document no_document decode_sample
           sample_backend _ _ _ "cv.rtf" E1 E2); [left|..]; reflexivity.
Defined.

Lemma customize_resume_success_witness :
  customize_resume no_document no_document decode_sample (Some sample_backend)
    (files_of "cv.txt" sample_resume "job.txt" sample_job)
  = Response (customized_body "Tailored resume" sample_resume sample_job 41 60 30 33
                "Your resume matches 33% of job keywords with 60% skill alignment.") 200
  /\ exists overall skills exp keywords,
       0 <= overall <= 100 /\ 0 <= skills <= 100
       /\ 0 <= exp <= 100 /\ 0 <= keywords <= 100.
Proof.
  assert (H : customize_resume no_document no_document decode_sample (Some sample_backend)
                (files_of "cv.txt" sample_resume "job.txt" sample_job)
              = Response (customized_body "Tailored resume" sample_resume sample_job
                            41 60 30 33
                            "Your resume matches 33% of job keywords with 60% skill alignment.")
                  200) by (vm_compute; reflexivity).
  split; [exact H|].
  destruct (customize_resume_success no_document no_document decode_sample
              sample_backend _ _ H)
    as (rf & jf & o & s & x & k & sm & t & _ & _ & _ & _ & _ & _ & _ & _ & B).
  exists o, s, x, k. exact B.
Defined.

Lemma customize_resume_reports_failures_witness :
  files_of "cv.txt" resume_1e308_years "job.txt" sample_job !! "resume"
  = Some (text_upload "cv.txt" (list_byte_of_string resume_1e308_years))
  /\ files_of "cv.txt" resume_1e308_years "job.txt" sample_job !! "job_description"
     = Some (text_upload "job.txt" (list_byte_of_string sample_job))
  /\ customize_resume no_document no_document decode_sample (Some sample_backend)
       (files_of "cv.txt" resume_1e308_years "job.txt" sample_job)
     = error_response "cannot convert float infinity to integer" 500.
Proof.
  assert (E1 : files_of "cv.txt" resume_1e308_years "job.txt" sample_job !! "resume"
               = Some (text_upload "cv.txt" (list_byte_of_string resume_1e308_years)))
    by reflexivity.
  assert (E2 : files_of "cv.txt" resume_1e308_years "job.txt" sample_job
               !! "job_description"
               = Some (text_upload "job.txt" (list_byte_of_string sample_job)))
    by reflexivity.
  split; [exact E1|]. split; [exact E2|].
  apply (customize_resume_reports_failures no_document no_document decode_sample
           sample_backend _ _ _
           (Exn OverflowError "cannot convert float infinity to integer") E1 E2).
  - vm_compute. discriminate.
  - vm_compute. discriminate.
  - left. vm_compute. reflexivity.
Defined.


Lemma chat_malformed_history_witness :
  truthy (dict_get (chat_request JNull) "resume_text") = true
  /\ truthy (dict_get (chat_request JNull) "message") = true
  /\ chat_request JNull !! "history" = Some JNull
  /\ exists e, chat_with_bot repr_sample (Some sample_backend) (chat_request JNull)
               = Unhandled e /\ exn_class e = TypeError.
Proof.
  assert (T1 : truthy (dict_get (chat_request JNull) "resume_text") = true) by reflexivity.
  assert (T2 : truthy (dict_get (chat_request JNull) "message") = true) by reflexivity.
  assert (E : chat_request JNull !! "history" = Some JNull) by reflexivity.
  split; [exact T1|]. split; [exact T2|]. split; [exact E|].
  exact (proj1 (chat_malformed_history repr_sample sample_backend _ T1 T2) E).
Defined.



Lemma resume_without_digits_witness :
  all_chars not_digit "Seasoned Python developer" = true
  /\ experience_of "Seasoned Python developer" = Ok 0.
Proof.
  split; [reflexivity|].
  exact (proj1 (resume_without_digits "Seasoned Python developer" sample_job eq_refl)).
Defined.

End SampleRuns.
